(** * codex-rotate: the account pool and its command handlers

    A shallow embedding of [packages/codex-rotate/index.ts].  The two files
    the tool works on (the live credential file [CODEX_AUTH] and the pool
    file [POOL_FILE]) are fields of a [World]; every handler is a function
    from a world to an [Outcome], which says whether the handler returned,
    left through [die] (exit status 1) or stopped on an uncaught exception,
    and in which world.  A character of a [string] stands for one code unit
    of a JavaScript string; [active_index] is an integer. *)

From Stdlib Require Import ZArith String Ascii.
From stdpp Require Import base option list strings.

Set Warnings "-register-all".

Local Open Scope string_scope.
Local Open Scope list_scope.
Local Open Scope Z_scope.

(** ** JSON values

    [JSON.parse] yields [null], booleans, numbers, strings, arrays and
    objects.  The program never computes with a number taken from a token,
    so a number is kept as its literal.  An object is the list of its own
    properties, each key once, as [JSON.parse] leaves them. *)

Inductive JsValue : Type :=
| JNull
| JBool (b : bool)
| JNum (literal : string)
| JStr (s : string)
| JArr (items : list JsValue)
| JObj (fields : list (string * JsValue)).

(** ** Types of the source *)

Module Tokens.
Record t : Type := Build {
  id_token : string;
  access_token : string;
  refresh_token : string;
  account_id : string
}.
End Tokens.

Record CodexAuth : Type := {
  auth_mode : string;
  OPENAI_API_KEY : option string;
  tokens : Tokens.t;
  last_refresh : string
}.

(** [email] and [plan_type] are declared [string] in the source, but they
    hold whatever [extractEmailFromAuth] and [extractPlanFromAuth] return,
    and those return the token's field unchecked ([as string] is erased at
    run time): they are JSON values here. *)
Module AccountEntry.
Record t : Type := Build {
  label : string;
  email : JsValue;
  account_id : string;
  plan_type : JsValue;
  auth : CodexAuth;
  added_at : string
}.
End AccountEntry.

Record Pool : Type := {
  active_index : Z;
  accounts : list AccountEntry.t
}.

(** ** Token inspector *)

(** Exceptions raised inside a [try] block. *)
Inductive Exc (A : Type) : Type :=
| Value (a : A)
| Raise.
Arguments Value {A} a.
Arguments Raise {A}.

Definition exc_bind {A B} (m : Exc A) (k : A -> Exc B) : Exc B :=
  match m with
  | Value a => k a
  | Raise => Raise
  end.

(** [try { return body } catch { return handler }] *)
Definition try_catch {A} (body : Exc A) (handler : A) : A :=
  match body with
  | Value a => a
  | Raise => handler
  end.

(** [s.split(".")]: the segments between the dots, the empty ones too. *)
Fixpoint split_dot (s : string) : list string :=
  match s with
  | EmptyString => [EmptyString]
  | String c rest =>
      if Ascii.eqb c "."%char then EmptyString :: split_dot rest
      else match split_dot rest with
           | seg :: segs => String c seg :: segs
           | [] => [String c EmptyString]
           end
  end.

(** [s.replaceAll(from, to)] for single characters. *)
Fixpoint replaceAll (from to : ascii) (s : string) : string :=
  match s with
  | EmptyString => EmptyString
  | String c rest =>
      String (if Ascii.eqb c from then to else c) (replaceAll from to rest)
  end.

(** Own property [k] of an object. *)
Fixpoint own_property (k : string) (fields : list (string * JsValue))
  : option JsValue :=
  match fields with
  | [] => None
  | (k', v) :: rest => if String.eqb k k' then Some v else own_property k rest
  end.

(** [v.k] for the property names the source reads ([email],
    [https://api.openai.com/auth], [chatgpt_plan_type]), none of which a
    string, number, boolean or array has, nor any prototype: reading it off
    [null] raises a [TypeError], off an object gives the own property, and
    off anything else gives [undefined] ([None]). *)
Definition get_property (v : JsValue) (k : string) : Exc (option JsValue) :=
  match v with
  | JNull => Raise
  | JObj fields => Value (own_property k fields)
  | _ => Value None
  end.

(** [v?.k]: [undefined] when [v] is [undefined] or [null]. *)
Definition get_property_opt (v : option JsValue) (k : string) : option JsValue :=
  match v with
  | None | Some JNull => None
  | Some (JObj fields) => own_property k fields
  | Some _ => None
  end.

(** [v ?? d] *)
Definition nullish (v : option JsValue) (d : JsValue) : JsValue :=
  match v with
  | None | Some JNull => d
  | Some x => x
  end.

Definition unknown : JsValue := JStr "unknown".

Section TokenInspector.

(** [Buffer.from(payload, "base64").toString("utf-8")]: Node's decoder
    skips what is not base64 and never raises. *)
Variable base64_utf8 : string -> string.

(** [JSON.parse]; [None] when it raises a [SyntaxError]. *)
Variable JSON_parse : string -> option JsValue.

Definition decodeJwtPayload (jwt : string) : Exc JsValue :=
  let parts := split_dot jwt in
  if negb (length parts =? 3)%nat then Raise
  else
    match parts !! 1%nat with
    | None => Raise
    | Some part =>
        let payload := replaceAll "_" "/" (replaceAll "-" "+" part) in
        let json := base64_utf8 payload in
        match JSON_parse json with
        | Some v => Value v
        | None => Raise
        end
    end.

Definition extractEmailFromAuth (auth : CodexAuth) : JsValue :=
  try_catch
    (exc_bind (decodeJwtPayload (Tokens.id_token (tokens auth))) (fun payload =>
     exc_bind (get_property payload "email") (fun e =>
     Value (nullish e unknown))))
    unknown.

Definition extractPlanFromAuth (auth : CodexAuth) : JsValue :=
  try_catch
    (exc_bind (decodeJwtPayload (Tokens.id_token (tokens auth))) (fun payload =>
     exc_bind (get_property payload "https://api.openai.com/auth") (fun authInfo =>
     Value (nullish (get_property_opt authInfo "chatgpt_plan_type") unknown))))
    unknown.

End TokenInspector.

(** ** The world a command runs in

    Process-wide state is rebuilt from disk at every invocation, so the
    world is what is on disk, the clock, and what was written so far.  A
    read fails on a missing file.  The tool creates its own directory
    [ROTATE_HOME] before it writes the pool file, and never creates or
    removes the host application's directory [CODEX_HOME]: whether that one
    exists is an input of an invocation (the [codex_home] of
    [writeCodexAuth]), not a part of the state a handler changes. *)

Inductive Path : Type := CODEX_AUTH | ROTATE_HOME | POOL_FILE.

(** Why [die] was called: one constructor per call site. *)
Inductive DieReason : Type :=
| UsageAdd
| AuthFileNotFound
| NoAccounts
| OnlyOneAccount
| UsageRemove
| AccountNotFound (label : string)
| UnknownCommand (command : string).

(** What is printed, one constructor per [console.log], [info] or [warn],
    holding the values interpolated in the text. *)
Inductive Message : Type :=
| Updated (label : string) (email : JsValue)
| AlreadyInPool (label : string)
| Added (label : string) (email plan : JsValue) (count : nat)
| Rotated (prev_label : string) (prev_email : JsValue)
          (next_label : string) (next_email next_plan : JsValue)
          (position : Z) (count : nat)
| NoAccountsInPool
| ListHeader (count : nat)
| ListRow (isActive : bool) (label : string) (email plan : JsValue)
          (id_prefix : string)
| BlankLine
| StatusHeader
| StatusActiveInCodex (email plan : JsValue)
| StatusAccountId (id : string)
| StatusLastRefresh (stamp : string)
| NoAuthFileFound
| StatusPoolFile
| StatusPoolSize (count : nat)
| StatusActiveSlot (label : string) (position : Z) (count : nat)
| Removed (label : string) (email : JsValue) (count : nat)
| Help.

Inductive Event : Type :=
| WriteAuth (auth : CodexAuth)
| WritePool (pool : Pool)
| Mkdir
| Stdout (m : Message)
| Stderr (r : DieReason).

Record World : Type := {
  codex_auth : option CodexAuth;   (* content of CODEX_AUTH, if the file exists *)
  rotate_home : bool;              (* does the directory ROTATE_HOME exist *)
  pool_file : option Pool;         (* content of POOL_FILE, if the file exists *)
  now : string;                    (* new Date().toISOString() *)
  events : list Event              (* what was done so far, latest first *)
}.

Inductive Outcome (A : Type) : Type :=
| Returned (a : A) (w : World)
| Exited (r : DieReason) (w : World)   (* process.exit(1), through die *)
| Threw (w : World).                   (* an exception nobody catches *)
Arguments Returned {A} a w.
Arguments Exited {A} r w.
Arguments Threw {A} w.

Definition M (A : Type) : Type := World -> Outcome A.

Definition ret {A} (a : A) : M A := fun w => Returned a w.

Definition bind {A B} (m : M A) (k : A -> M B) : M B :=
  fun w =>
    match m w with
    | Returned a w' => k a w'
    | Exited r w' => Exited r w'
    | Threw w' => Threw w'
    end.

Definition throw {A} : M A := fun w => Threw w.

Declare Scope cmd_scope.
Delimit Scope cmd_scope with cmd.
Bind Scope cmd_scope with M.
Notation "'let*' x ':=' m 'in' k" := (bind m (fun x => k))
  (at level 10, x name, m at level 100, k at level 200) : cmd_scope.
Notation "m '>>' k" := (bind m (fun _ => k))
  (at level 100, k at level 200, right associativity) : cmd_scope.
Local Open Scope cmd_scope.

Definition emit (e : Event) : M unit :=
  fun w =>
    Returned tt {| codex_auth := codex_auth w; rotate_home := rotate_home w;
                   pool_file := pool_file w; now := now w;
                   events := e :: events w |}.

Definition log (m : Message) : M unit := emit (Stdout m).
Definition info (m : Message) : M unit := log m.
Definition warn (m : Message) : M unit := log m.

Definition die {A} (r : DieReason) : M A :=
  fun w =>
    match emit (Stderr r) w with
    | Returned _ w' => Exited r w'
    | Exited r' w' => Exited r' w'
    | Threw w' => Threw w'
    end.

Definition present {A} (file : option A) : bool :=
  match file with
  | Some _ => true
  | None => false
  end.

Definition existsSync (p : Path) : M bool :=
  fun w =>
    Returned match p with
             | CODEX_AUTH => present (codex_auth w)
             | ROTATE_HOME => rotate_home w
             | POOL_FILE => present (pool_file w)
             end w.

Definition mkdirSync_ROTATE_HOME : M unit :=
  fun w =>
    Returned tt {| codex_auth := codex_auth w; rotate_home := true;
                   pool_file := pool_file w; now := now w;
                   events := Mkdir :: events w |}.

(** [JSON.parse(readFileSync(POOL_FILE, "utf-8")) as Pool] *)
Definition read_POOL_FILE : M Pool :=
  fun w => match pool_file w with Some p => Returned p w | None => Threw w end.

(** [JSON.parse(readFileSync(CODEX_AUTH, "utf-8")) as CodexAuth] *)
Definition read_CODEX_AUTH : M CodexAuth :=
  fun w => match codex_auth w with Some a => Returned a w | None => Threw w end.

(** [writeFileSync(POOL_FILE, JSON.stringify(pool, null, 2), ...)].  What
    is read back later is what was written: so it is for a pool of the
    declared type, whose [email] and [plan_type] are strings.  (A number
    that JSON does not print back, an infinity or a negative zero taken from
    a token, would be read back as [null] or [0].) *)
Definition write_POOL_FILE (pool : Pool) : M unit :=
  fun w =>
    if rotate_home w then
      Returned tt {| codex_auth := codex_auth w; rotate_home := rotate_home w;
                     pool_file := Some pool; now := now w;
                     events := WritePool pool :: events w |}
    else Threw w.

(** [new Date().toISOString()] *)
Definition Date_now : M string := fun w => Returned (now w) w.

(** ** Pool I/O *)

Definition ensureRotateDir : M unit :=
  let* e := existsSync ROTATE_HOME in
  if negb e then mkdirSync_ROTATE_HOME else ret tt.

Definition loadPool : M Pool :=
  let* e := existsSync POOL_FILE in
  if negb e then ret {| active_index := 0; accounts := [] |}
  else read_POOL_FILE.

Definition savePool (pool : Pool) : M unit :=
  ensureRotateDir >> write_POOL_FILE pool.

Definition loadCodexAuth : M CodexAuth :=
  let* e := existsSync CODEX_AUTH in
  (if negb e then die AuthFileNotFound else ret tt) >>
  read_CODEX_AUTH.

(** [writeFileSync(CODEX_AUTH, ...)] creates the file but no directory:
    where [CODEX_HOME] is missing it raises [ENOENT], which nobody catches.
    [codex_home] says whether the directory exists; it does at any rate
    when the file in it does. *)
Definition writeCodexAuth (codex_home : bool) (auth : CodexAuth) : M unit :=
  fun w =>
    if codex_home || present (codex_auth w) then
      Returned tt {| codex_auth := Some auth; rotate_home := rotate_home w;
                     pool_file := pool_file w; now := now w;
                     events := WriteAuth auth :: events w |}
    else Threw w.

(** ** Array helpers *)

(** [xs.findIndex(p)], with [None] for [-1]. *)
Fixpoint findIndex {A} (p : A -> bool) (xs : list A) : option nat :=
  match xs with
  | [] => None
  | x :: rest => if p x then Some 0%nat else S <$> findIndex p rest
  end.

(** [xs[i]] for an integer [i]; [None] is [undefined]. *)
Definition at_index {A} (xs : list A) (i : Z) : option A :=
  if i <? 0 then None else xs !! Z.to_nat i.

(** [entry.auth = auth] *)
Definition set_auth (auth : CodexAuth) (entry : AccountEntry.t) : AccountEntry.t :=
  {| AccountEntry.label := AccountEntry.label entry;
     AccountEntry.email := AccountEntry.email entry;
     AccountEntry.account_id := AccountEntry.account_id entry;
     AccountEntry.plan_type := AccountEntry.plan_type entry;
     AccountEntry.auth := auth;
     AccountEntry.added_at := AccountEntry.added_at entry |}.

(** [x!.field] on a value that may be [undefined]: a [TypeError] then. *)
Definition defined {A} (x : option A) : M A :=
  match x with
  | Some a => ret a
  | None => throw
  end.

(** ** Commands *)

Section Commands.

Variable base64_utf8 : string -> string.
Variable JSON_parse : string -> option JsValue.

Local Abbreviation extractEmailFromAuth := (extractEmailFromAuth base64_utf8 JSON_parse).
Local Abbreviation extractPlanFromAuth := (extractPlanFromAuth base64_utf8 JSON_parse).

(** Lines 154-157: [entry.auth], [entry.email], [entry.plan_type] and
    [entry.account_id] are assigned from the live credential. *)
Definition updated_entry (auth : CodexAuth) (entry : AccountEntry.t)
  : AccountEntry.t :=
  {| AccountEntry.label := AccountEntry.label entry;
     AccountEntry.email := extractEmailFromAuth auth;
     AccountEntry.account_id := Tokens.account_id (tokens auth);
     AccountEntry.plan_type := extractPlanFromAuth auth;
     AccountEntry.auth := auth;
     AccountEntry.added_at := AccountEntry.added_at entry |}.

(** Lines 168-170: [dupAcct.auth], [dupAcct.email] and [dupAcct.plan_type]
    are assigned; [dupAcct.account_id] is not. *)
Definition updated_tokens (auth : CodexAuth) (dupAcct : AccountEntry.t)
  : AccountEntry.t :=
  {| AccountEntry.label := AccountEntry.label dupAcct;
     AccountEntry.email := extractEmailFromAuth auth;
     AccountEntry.account_id := AccountEntry.account_id dupAcct;
     AccountEntry.plan_type := extractPlanFromAuth auth;
     AccountEntry.auth := auth;
     AccountEntry.added_at := AccountEntry.added_at dupAcct |}.

(** Lines 175-182. *)
Definition new_entry (label : string) (auth : CodexAuth) (added : string)
  : AccountEntry.t :=
  {| AccountEntry.label := label;
     AccountEntry.email := extractEmailFromAuth auth;
     AccountEntry.account_id := Tokens.account_id (tokens auth);
     AccountEntry.plan_type := extractPlanFromAuth auth;
     AccountEntry.auth := auth;
     AccountEntry.added_at := added |}.

Definition has_label (label : string) (a : AccountEntry.t) : bool :=
  String.eqb (AccountEntry.label a) label.

Definition same_account (auth : CodexAuth) (a : AccountEntry.t) : bool :=
  String.eqb (Tokens.account_id (tokens (AccountEntry.auth a)))
             (Tokens.account_id (tokens auth)).

Definition cmdAdd (label : string) : M unit :=
  (if String.eqb label "" then die UsageAdd else ret tt) >>
  let* auth := loadCodexAuth in
  let* pool := loadPool in
  (* Check for duplicate label *)
  match findIndex (has_label label) (accounts pool) with
  | Some existing =>
      (* Update in place *)
      let* entry := defined (accounts pool !! existing) in
      let entry := updated_entry auth entry in
      let pool :=
        {| active_index := Z.of_nat existing;
           accounts := <[existing := entry]> (accounts pool) |} in
      savePool pool >>
      info (Updated label (AccountEntry.email entry))
  | None =>
      (* Check for duplicate account_id: [find] gives the first such
         entry, the very object in the array, so assigning to its fields
         changes the pool. *)
      match findIndex (same_account auth) (accounts pool) with
      | Some j =>
          let* dupAcct := defined (accounts pool !! j) in
          warn (AlreadyInPool (AccountEntry.label dupAcct)) >>
          savePool {| active_index := active_index pool;
                      accounts := <[j := updated_tokens auth dupAcct]>
                                    (accounts pool) |}
      | None =>
          let* added := Date_now in
          let entry := new_entry label auth added in
          let accounts' := accounts pool ++ [entry] in
          let pool :=
            {| active_index := Z.of_nat (length accounts') - 1;
               accounts := accounts' |} in
          savePool pool >>
          info (Added label (AccountEntry.email entry)
                      (AccountEntry.plan_type entry) (length (accounts pool)))
      end
  end.

(** [cmdNext] and [cmdPrev] are the same text but for the line that
    moves [active_index]; [advance i n] is that line's right-hand side. *)
Definition rotate_in (codex_home : bool) (advance : Z -> Z -> Z) : M unit :=
  let* pool := loadPool in
  (if (length (accounts pool) =? 0)%nat then die NoAccounts else ret tt) >>
  (if (length (accounts pool) =? 1)%nat then die OnlyOneAccount else ret tt) >>
  (* Save current auth back into the active slot *)
  let* e := existsSync CODEX_AUTH in
  let* pool :=
    if e then
      let* currentAuth := loadCodexAuth in
      match at_index (accounts pool) (active_index pool) with
      | Some activeAccount =>
          if same_account currentAuth activeAccount then
            ret {| active_index := active_index pool;
                   accounts := <[Z.to_nat (active_index pool) :=
                                   set_auth currentAuth activeAccount]>
                                 (accounts pool) |}
          else ret pool
      | None => ret pool
      end
    else ret pool in
  let prevIndex := active_index pool in
  let pool :=
    {| active_index := advance (active_index pool)
                               (Z.of_nat (length (accounts pool)));
       accounts := accounts pool |} in
  let* next := defined (at_index (accounts pool) (active_index pool)) in
  (* Write new auth *)
  writeCodexAuth codex_home (AccountEntry.auth next) >>
  savePool pool >>
  let* prev := defined (at_index (accounts pool) prevIndex) in
  log (Rotated (AccountEntry.label prev) (AccountEntry.email prev)
               (AccountEntry.label next) (AccountEntry.email next)
               (AccountEntry.plan_type next)
               (active_index pool + 1) (length (accounts pool))).

(** JavaScript's [%] takes the sign of the dividend: [Z.rem]. *)
Definition cmdNext_in (codex_home : bool) : M unit :=
  rotate_in codex_home (fun i n => Z.rem (i + 1) n).

Definition cmdPrev_in (codex_home : bool) : M unit :=
  rotate_in codex_home (fun i n => Z.rem (i - 1 + n) n).

(** The handlers where [CODEX_HOME] exists, as it does once the host
    application has logged in. *)
Definition rotate (advance : Z -> Z -> Z) : M unit := rotate_in true advance.

Definition cmdNext : M unit := rotate (fun i n => Z.rem (i + 1) n).

Definition cmdPrev : M unit := rotate (fun i n => Z.rem (i - 1 + n) n).

(** The [for] loop of [cmdList], from position [i] on. *)
Fixpoint list_rows (active : Z) (i : nat) (rows : list AccountEntry.t)
  : M unit :=
  match rows with
  | [] => ret tt
  | a :: rest =>
      let isActive := Z.of_nat i =? active in
      log (ListRow isActive (AccountEntry.label a) (AccountEntry.email a)
                   (AccountEntry.plan_type a)
                   (String.substring 0 8 (AccountEntry.account_id a))) >>
      list_rows active (S i) rest
  end.

Definition cmdList : M unit :=
  let* pool := loadPool in
  if (length (accounts pool) =? 0)%nat then warn NoAccountsInPool
  else
    log (ListHeader (length (accounts pool))) >>
    list_rows (active_index pool) 0 (accounts pool) >>
    log BlankLine.

Definition cmdStatus : M unit :=
  let* pool := loadPool in
  let* e := existsSync CODEX_AUTH in
  let* auth := if e then (let* a := loadCodexAuth in ret (Some a))
               else ret None in
  log StatusHeader >>
  match auth with
  | Some auth =>
      let email := extractEmailFromAuth auth in
      let plan := extractPlanFromAuth auth in
      log (StatusActiveInCodex email plan) >>
      log (StatusAccountId (Tokens.account_id (tokens auth))) >>
      log (StatusLastRefresh (last_refresh auth))
  | None => warn NoAuthFileFound
  end >>
  log StatusPoolFile >>
  log (StatusPoolSize (length (accounts pool))) >>
  (if (0 <? length (accounts pool))%nat then
     let* active := defined (at_index (accounts pool) (active_index pool)) in
     log (StatusActiveSlot (AccountEntry.label active)
                           (active_index pool + 1) (length (accounts pool)))
   else ret tt) >>
  log BlankLine.

Definition cmdRemove (label : string) : M unit :=
  (if String.eqb label "" then die UsageRemove else ret tt) >>
  let* pool := loadPool in
  match findIndex (has_label label) (accounts pool) with
  | None => die (AccountNotFound label)
  | Some idx =>
      let* removed := defined (accounts pool !! idx) in
      let accounts' := delete idx (accounts pool) in
      (* Adjust active_index *)
      let active' :=
        if (length accounts' =? 0)%nat
           || (Z.of_nat (length accounts') <=? active_index pool)
        then 0 else active_index pool in
      savePool {| active_index := active'; accounts := accounts' |} >>
      info (Removed (AccountEntry.label removed) (AccountEntry.email removed)
                    (length accounts'))
  end.

Definition cmdHelp : M unit := log Help.

(** The [switch] at the end of the file, on [process.argv.slice(2)]. *)
Definition main (argv : list string) : M unit :=
  let arg0 := default "" (tail argv !! 0%nat) in
  match head argv with
  | None => cmdHelp
  | Some command =>
      if String.eqb command "add" then cmdAdd arg0
      else if String.eqb command "next" || String.eqb command "n" then cmdNext
      else if String.eqb command "prev" || String.eqb command "p" then cmdPrev
      else if String.eqb command "list" || String.eqb command "ls" then cmdList
      else if String.eqb command "status" || String.eqb command "s" then cmdStatus
      else if String.eqb command "remove" || String.eqb command "rm" then cmdRemove arg0
      else if String.eqb command "help" || String.eqb command "--help"
              || String.eqb command "-h" then cmdHelp
      else die (UnknownCommand command)
  end.

End Commands.

(** ** Sample worlds *)

Module Sample.

(** Stand-ins for Node's decoder and [JSON.parse], enough to run the
    handlers on: one payload is understood, everything else is a syntax
    error. *)
Definition base64_utf8 (s : string) : string := s.

Definition JSON_parse (s : string) : option JsValue :=
  if String.eqb s "e30" then Some (JObj [])
  else if String.eqb s "mail" then Some (JObj [("email", JStr "a@x.com")])
  else None.

Definition credential (id : string) (refresh : string) : CodexAuth :=
  {| auth_mode := "chatgpt"; OPENAI_API_KEY := None;
     tokens := {| Tokens.id_token := "h.mail.s";
                  Tokens.access_token := "access-" ++ id;
                  Tokens.refresh_token := refresh;
                  Tokens.account_id := id |};
     last_refresh := "2025-01-01T00:00:00.000Z" |}.

Definition entry (label id : string) : AccountEntry.t :=
  {| AccountEntry.label := label;
     AccountEntry.email := JStr "a@x.com";
     AccountEntry.account_id := id;
     AccountEntry.plan_type := unknown;
     AccountEntry.auth := credential id "r0";
     AccountEntry.added_at := "2025-01-01T00:00:00.000Z" |}.

Definition world (live : option CodexAuth) (pool : option Pool) : World :=
  {| codex_auth := live; rotate_home := present pool; pool_file := pool;
     now := "2025-06-01T00:00:00.000Z"; events := [] |}.

Definition two_accounts : Pool :=
  {| active_index := 0; accounts := [entry "personal" "acct-1"; entry "work" "acct-2"] |}.

Definition three_accounts : Pool :=
  {| active_index := 2;
     accounts := [entry "personal" "acct-1"; entry "work" "acct-2";
                  entry "lab" "acct-3"] |}.

End Sample.

(** ** What a handler leaves behind *)

Definition world_of {A} (o : Outcome A) : World :=
  match o with
  | Returned _ w | Exited _ w | Threw w => w
  end.

(** The pool [loadPool] finds in a world. *)
Definition persisted (w : World) : Pool :=
  default {| active_index := 0; accounts := [] |} (pool_file w).

Definition in_range (p : Pool) : Prop :=
  0 <= active_index p < Z.of_nat (length (accounts p)).

Definition is_WriteAuth (e : Event) : bool :=
  match e with
  | WriteAuth _ => true
  | _ => false
  end.

(** How many times the live credential file was written. *)
Definition auth_writes (w : World) : nat :=
  length (List.filter is_WriteAuth (events w)).

(** The six handlers of the claims. *)
Inductive Handler : Type :=
| DoAdd (label : string)
| DoNext
| DoPrev
| DoList
| DoStatus
| DoRemove (label : string).

Definition run_handler (base64_utf8 : string -> string)
    (JSON_parse : string -> option JsValue) (h : Handler) : M unit :=
  match h with
  | DoAdd label => cmdAdd base64_utf8 JSON_parse label
  | DoNext => cmdNext
  | DoPrev => cmdPrev
  | DoList => cmdList
  | DoStatus => cmdStatus base64_utf8 JSON_parse
  | DoRemove label => cmdRemove label
  end.

(** [n] invocations in a row. *)
Fixpoint times (n : nat) (c : M unit) : M unit :=
  match n with
  | O => ret tt
  | S n' => c >> times n' c
  end.

(** ** Worlds after an effect *)

(** The world after [emit e]. *)
Definition logged (e : Event) (w : World) : World :=
  {| codex_auth := codex_auth w; rotate_home := rotate_home w;
     pool_file := pool_file w; now := now w; events := e :: events w |}.

(** The world after [savePool pool]. *)
Definition saved (pool : Pool) (w : World) : World :=
  {| codex_auth := codex_auth w; rotate_home := true;
     pool_file := Some pool; now := now w;
     events := WritePool pool
               :: (if rotate_home w then [] else [Mkdir]) ++ events w |}.

(** The world after [writeCodexAuth auth]. *)
Definition mirrored (auth : CodexAuth) (w : World) : World :=
  {| codex_auth := Some auth; rotate_home := rotate_home w;
     pool_file := pool_file w; now := now w;
     events := WriteAuth auth :: events w |}.

(** The world after the messages [es] (latest first) were printed. *)
Definition logged_all (es : list Event) (w : World) : World :=
  {| codex_auth := codex_auth w; rotate_home := rotate_home w;
     pool_file := pool_file w; now := now w; events := es ++ events w |}.

(** What the loop of [cmdList] prints, latest first. *)
Fixpoint rows_printed (active : Z) (i : nat) (rows : list AccountEntry.t)
  : list Event :=
  match rows with
  | [] => []
  | a :: rest =>
      rows_printed active (S i) rest
      ++ [Stdout (ListRow (Z.of_nat i =? active) (AccountEntry.label a)
                          (AccountEntry.email a) (AccountEntry.plan_type a)
                          (String.substring 0 8 (AccountEntry.account_id a)))]
  end.

(** The accounts after the reconciliation step of [next] and [prev]. *)
Definition reconciled (live : option CodexAuth) (pool : Pool)
  : list AccountEntry.t :=
  match live with
  | None => accounts pool
  | Some currentAuth =>
      match at_index (accounts pool) (active_index pool) with
      | Some activeAccount =>
          if same_account currentAuth activeAccount
          then <[Z.to_nat (active_index pool) := set_auth currentAuth activeAccount]>
                 (accounts pool)
          else accounts pool
      | None => accounts pool
      end
  end.

(** The ways an identity token fails to give a field.  [Email] and [Plan]
    name the field asked for. *)
Inductive Field : Type := Email | Plan.

Definition auth_key : string := "https://api.openai.com/auth".

Section Vocabulary.

Variable base64_utf8 : string -> string.
Variable JSON_parse : string -> option JsValue.

Local Abbreviation updated_entry := (updated_entry base64_utf8 JSON_parse).
Local Abbreviation updated_tokens := (updated_tokens base64_utf8 JSON_parse).
Local Abbreviation new_entry := (new_entry base64_utf8 JSON_parse).

(** What [cmdStatus] prints, latest first, when the active slot is there. *)
Definition status_printed (live : option CodexAuth) (pool : Pool)
    (slot : list Event) : list Event :=
  Stdout BlankLine :: slot
  ++ [Stdout (StatusPoolSize (length (accounts pool))); Stdout StatusPoolFile]
  ++ match live with
     | Some auth =>
         [Stdout (StatusLastRefresh (last_refresh auth));
          Stdout (StatusAccountId (Tokens.account_id (tokens auth)));
          Stdout (StatusActiveInCodex
                    (extractEmailFromAuth base64_utf8 JSON_parse auth)
                    (extractPlanFromAuth base64_utf8 JSON_parse auth))]
     | None => [Stdout NoAuthFileFound]
     end
  ++ [Stdout StatusHeader].

Definition extract (f : Field) : CodexAuth -> JsValue :=
  match f with
  | Email => extractEmailFromAuth base64_utf8 JSON_parse
  | Plan => extractPlanFromAuth base64_utf8 JSON_parse
  end.

(** The text handed to [JSON.parse] for the middle segment [part]. *)
Definition payload_text (part : string) : string :=
  base64_utf8 (replaceAll "_" "/" (replaceAll "-" "+" part)).

Definition is_document (v : JsValue) : bool :=
  match v with
  | JObj _ => true
  | _ => false
  end.

Inductive decode_failure (auth : CodexAuth) : Field -> Prop :=
| wrong_segment_count (f : Field) :
    length (split_dot (Tokens.id_token (tokens auth))) <> 3%nat ->
    decode_failure auth f
| unparseable_payload (f : Field) (header part signature : string) :
    split_dot (Tokens.id_token (tokens auth)) = [header; part; signature] ->
    JSON_parse (payload_text part) = None ->
    decode_failure auth f
| payload_not_a_document (f : Field) (header part signature : string)
                         (v : JsValue) :
    split_dot (Tokens.id_token (tokens auth)) = [header; part; signature] ->
    JSON_parse (payload_text part) = Some v ->
    is_document v = false ->
    decode_failure auth f
| email_absent (header part signature : string)
               (fields : list (string * JsValue)) :
    split_dot (Tokens.id_token (tokens auth)) = [header; part; signature] ->
    JSON_parse (payload_text part) = Some (JObj fields) ->
    own_property "email" fields = None ->
    decode_failure auth Email
| auth_info_absent (header part signature : string)
                   (fields : list (string * JsValue)) :
    split_dot (Tokens.id_token (tokens auth)) = [header; part; signature] ->
    JSON_parse (payload_text part) = Some (JObj fields) ->
    own_property auth_key fields = None ->
    decode_failure auth Plan
| auth_info_not_a_document (header part signature : string)
                           (fields : list (string * JsValue)) (x : JsValue) :
    split_dot (Tokens.id_token (tokens auth)) = [header; part; signature] ->
    JSON_parse (payload_text part) = Some (JObj fields) ->
    own_property auth_key fields = Some x ->
    is_document x = false ->
    decode_failure auth Plan
| plan_absent (header part signature : string)
              (fields info : list (string * JsValue)) :
    split_dot (Tokens.id_token (tokens auth)) = [header; part; signature] ->
    JSON_parse (payload_text part) = Some (JObj fields) ->
    own_property auth_key fields = Some (JObj info) ->
    own_property "chatgpt_plan_type" info = None ->
    decode_failure auth Plan.

(** The three ways [add] returns. *)
Inductive add_result (label : string) (auth : CodexAuth) (added : string)
    (pool : Pool) : Pool -> Prop :=
| add_same_label (existing : nat) (entry : AccountEntry.t) :
    findIndex (has_label label) (accounts pool) = Some existing ->
    accounts pool !! existing = Some entry ->
    add_result label auth added pool
      {| active_index := Z.of_nat existing;
         accounts := <[existing := updated_entry auth entry]> (accounts pool) |}
| add_same_account (j : nat) (dupAcct : AccountEntry.t) :
    findIndex (has_label label) (accounts pool) = None ->
    findIndex (same_account auth) (accounts pool) = Some j ->
    accounts pool !! j = Some dupAcct ->
    add_result label auth added pool
      {| active_index := active_index pool;
         accounts := <[j := updated_tokens auth dupAcct]> (accounts pool) |}
| add_new :
    findIndex (has_label label) (accounts pool) = None ->
    findIndex (same_account auth) (accounts pool) = None ->
    add_result label auth added pool
      {| active_index := Z.of_nat (length (accounts pool ++ [new_entry label auth added])) - 1;
         accounts := accounts pool ++ [new_entry label auth added] |}.

End Vocabulary.

(** ** Further observations *)

Definition is_WritePool (e : Event) : bool :=
  match e with
  | WritePool _ => true
  | _ => false
  end.

(** How many times the pool file was written. *)
Definition pool_writes (w : World) : nat :=
  length (List.filter is_WritePool (events w)).

(** A row of [cmdList]; a row carrying the active marker. *)
Definition is_row (e : Event) : bool :=
  match e with
  | Stdout (ListRow _ _ _ _ _) => true
  | _ => false
  end.

Definition is_active_row (e : Event) : bool :=
  match e with
  | Stdout (ListRow true _ _ _ _) => true
  | _ => false
  end.

(** The number of dots of a token. *)
Fixpoint count_dots (s : string) : nat :=
  match s with
  | EmptyString => 0
  | String c rest =>
      if Ascii.eqb c "."%char then S (count_dots rest) else count_dots rest
  end.

(** Nothing but lines on standard output. *)
Definition printed_only (es : list Event) : Prop :=
  Forall (fun e => exists m, e = Stdout m) es.

(** The [case] labels of the [switch] in [main]. *)
Definition known_commands : list string :=
  ["add"; "next"; "n"; "prev"; "p"; "list"; "ls"; "status"; "s";
   "remove"; "rm"; "help"; "--help"; "-h"].

(** The stored credentials' account identifiers, in pool order. *)
Definition stored_account_ids (pool : Pool) : list string :=
  (fun a => Tokens.account_id (tokens (AccountEntry.auth a))) <$> accounts pool.

(** The translation of the base64url alphabet, character by character. *)
Definition url_to_standard (c : ascii) : ascii :=
  if Ascii.eqb c "-" then "+"%char
  else if Ascii.eqb c "_" then "/"%char else c.

(** A pool as the data model wants it: the index within the pool, or 0 in
    an empty pool. *)
Definition well_formed (p : Pool) : Prop :=
  (accounts p <> [] -> in_range p) /\ (accounts p = [] -> active_index p = 0).

(** What happens to the two files over time: the tool is invoked, and,
    between invocations, the host application rewrites or deletes the live
    credential file while the clock moves on. *)
Inductive Step : Type :=
| Invoke (h : Handler)
| Outside (live : option CodexAuth) (clock : string).

Definition outside (live : option CodexAuth) (clock : string) (w : World) : World :=
  {| codex_auth := live; rotate_home := rotate_home w;
     pool_file := pool_file w; now := clock; events := events w |}.

Fixpoint history (base64_utf8 : string -> string)
    (JSON_parse : string -> option JsValue) (steps : list Step) (w : World)
  : World :=
  match steps with
  | [] => w
  | Invoke h :: rest =>
      history base64_utf8 JSON_parse rest
        (world_of (run_handler base64_utf8 JSON_parse h w))
  | Outside live clock :: rest =>
      history base64_utf8 JSON_parse rest (outside live clock w)
  end.

(** * Proofs *)

(** ** The model on the scenarios of the specification *)

Example split_dot_three : split_dot "a.b.c" = ["a"; "b"; "c"].
Proof. reflexivity. Qed.

Example split_dot_keeps_empty_segments : split_dot "a..b." = ["a"; ""; "b"; ""].
Proof. reflexivity. Qed.

(** Empty pool, [add work]: one entry, index 0, the email of the token. *)
Example add_to_empty_pool :
  persisted (world_of (cmdAdd Sample.base64_utf8 Sample.JSON_parse "work"
                         (Sample.world (Some (Sample.credential "acct-9" "r1")) None)))
  = {| active_index := 0;
       accounts := [ {| AccountEntry.label := "work";
                        AccountEntry.email := JStr "a@x.com";
                        AccountEntry.account_id := "acct-9";
                        AccountEntry.plan_type := JStr "unknown";
                        AccountEntry.auth := Sample.credential "acct-9" "r1";
                        AccountEntry.added_at := "2025-06-01T00:00:00.000Z" |} ] |}.
Proof. reflexivity. Qed.

(** Removing the only account leaves an empty pool with index 0. *)
Example remove_only_account :
  persisted (world_of (cmdRemove "solo"
                         (Sample.world None
                            (Some {| active_index := 0;
                                     accounts := [Sample.entry "solo" "acct-1"] |}))))
  = {| active_index := 0; accounts := [] |}.
Proof. reflexivity. Qed.

(** An index outside the pool: [next] writes both files and then stops on
    the [TypeError] of [prev.label]. *)
Example next_with_index_outside_pool :
  exists w',
    cmdNext (Sample.world None
               (Some {| active_index := 7;
                        accounts := accounts Sample.two_accounts |}))
    = Threw w'
    /\ active_index (persisted w') = 0.
Proof. eexists. split; [vm_compute; reflexivity | reflexivity]. Qed.

(** ** Running the primitives *)

Lemma bind_run {A B} (m : M A) (k : A -> M B) (w : World) :
  bind m k w = match m w with
               | Returned a w' => k a w'
               | Exited r w' => Exited r w'
               | Threw w' => Threw w'
               end.
Proof. reflexivity. Qed.

Lemma ret_run {A} (a : A) (w : World) : ret a w = Returned a w.
Proof. reflexivity. Qed.

Lemma emit_run (e : Event) (w : World) : emit e w = Returned tt (logged e w).
Proof. reflexivity. Qed.

Lemma log_run (m : Message) (w : World) :
  log m w = Returned tt (logged (Stdout m) w).
Proof. reflexivity. Qed.

Lemma die_run {A} (r : DieReason) (w : World) :
  @die A r w = Exited r (logged (Stderr r) w).
Proof. reflexivity. Qed.

Lemma loadPool_run (w : World) : loadPool w = Returned (persisted w) w.
Proof.
  unfold loadPool, persisted. rewrite bind_run. unfold existsSync, read_POOL_FILE.
  destruct (pool_file w) eqn:E; simpl; rewrite ?E; reflexivity.
Qed.

Lemma savePool_run (pool : Pool) (w : World) :
  savePool pool w = Returned tt (saved pool w).
Proof.
  unfold savePool, ensureRotateDir, saved. rewrite !bind_run.
  unfold existsSync, mkdirSync_ROTATE_HOME, write_POOL_FILE.
  destruct (rotate_home w) eqn:E; simpl; rewrite ?E; reflexivity.
Qed.

Lemma loadCodexAuth_run (w : World) :
  loadCodexAuth w = match codex_auth w with
                    | Some a => Returned a w
                    | None => Exited AuthFileNotFound
                                     (logged (Stderr AuthFileNotFound) w)
                    end.
Proof.
  unfold loadCodexAuth, bind, existsSync, read_CODEX_AUTH.
  destruct (codex_auth w) eqn:E; simpl; unfold logged; rewrite ?E; reflexivity.
Qed.

Lemma writeCodexAuth_run (codex_home : bool) (auth : CodexAuth) (w : World) :
  writeCodexAuth codex_home auth w =
    if codex_home || present (codex_auth w)
    then Returned tt (mirrored auth w) else Threw w.
Proof. reflexivity. Qed.

Lemma existsSync_CODEX_AUTH_run (w : World) :
  existsSync CODEX_AUTH w = Returned (present (codex_auth w)) w.
Proof. reflexivity. Qed.

Lemma Date_now_run (w : World) : Date_now w = Returned (now w) w.
Proof. reflexivity. Qed.

Lemma persisted_saved (pool : Pool) (w : World) : persisted (saved pool w) = pool.
Proof. reflexivity. Qed.

Lemma persisted_logged (e : Event) (w : World) :
  persisted (logged e w) = persisted w.
Proof. reflexivity. Qed.

Ltac run_step :=
  first [ rewrite bind_run
        | rewrite loadPool_run
        | rewrite savePool_run
        | rewrite loadCodexAuth_run
        | rewrite writeCodexAuth_run
        | rewrite existsSync_CODEX_AUTH_run
        | rewrite Date_now_run
        | rewrite die_run
        | rewrite ret_run
        | rewrite log_run
        | rewrite emit_run ].

Ltac run := repeat (run_step; cbv beta iota); unfold info, warn; repeat (run_step; cbv beta iota).

(** ** Facts about [findIndex] *)

Lemma findIndex_Some {A} (p : A -> bool) (xs : list A) (i : nat) :
  findIndex p xs = Some i ->
  exists x, xs !! i = Some x /\ p x = true /\
            forall j y, (j < i)%nat -> xs !! j = Some y -> p y = false.
Proof.
  revert i. induction xs as [|x xs IH]; intros i; simpl; [discriminate|].
  destruct (p x) eqn:Hp.
  - intros [= <-]. exists x. repeat split; auto. intros j y Hj. lia.
  - destruct (findIndex p xs) as [k|] eqn:Hf; simpl; [|discriminate].
    intros [= <-]. destruct (IH k eq_refl) as (y & Hy & Hpy & Hbefore).
    exists y. repeat split; auto.
    intros [|j] z Hj; simpl.
    + intros [= <-]. exact Hp.
    + apply Hbefore. lia.
Qed.

Lemma findIndex_None {A} (p : A -> bool) (xs : list A) :
  findIndex p xs = None <-> forall x, x ∈ xs -> p x = false.
Proof.
  induction xs as [|x xs IH]; simpl.
  - split; [intros _ y Hy; inversion Hy | reflexivity].
  - destruct (p x) eqn:Hp.
    + split; [discriminate|]. intros H. rewrite H in Hp; [discriminate|left].
    + destruct (findIndex p xs) eqn:Hf; simpl.
      * split; [discriminate|]. intros H.
        assert (Hnone : Some n = None)
          by (apply IH; intros y Hy; apply H; now right).
        discriminate Hnone.
      * split; [|reflexivity]. intros _ y Hy.
        apply elem_of_cons in Hy as [->|Hy]; [exact Hp|].
        now apply IH.
Qed.

Lemma findIndex_lt {A} (p : A -> bool) (xs : list A) (i : nat) :
  findIndex p xs = Some i -> (i < length xs)%nat.
Proof.
  intros H. apply findIndex_Some in H as (x & Hx & _).
  eapply lookup_lt_Some; eauto.
Qed.

Lemma eqb_empty_label (label : string) :
  label <> "" -> String.eqb label "" = false.
Proof. intros H. now apply String.eqb_neq. Qed.

Lemma cmdRemove_run (label : string) (w : World) :
  label <> "" ->
  cmdRemove label w =
    let pool := persisted w in
    match findIndex (has_label label) (accounts pool) with
    | None => Exited (AccountNotFound label)
                     (logged (Stderr (AccountNotFound label)) w)
    | Some idx =>
        match accounts pool !! idx with
        | None => Threw w
        | Some removed =>
            let accounts' := delete idx (accounts pool) in
            let active' :=
              if (length accounts' =? 0)%nat
                 || (Z.of_nat (length accounts') <=? active_index pool)
              then 0 else active_index pool in
            Returned tt
              (logged (Stdout (Removed (AccountEntry.label removed)
                                       (AccountEntry.email removed)
                                       (length accounts')))
                      (saved {| active_index := active'; accounts := accounts' |} w))
        end
    end.
Proof.
  intros Hlabel. unfold cmdRemove. rewrite (eqb_empty_label _ Hlabel). run.
  destruct (findIndex _ _) as [idx|]; [|now run].
  run. destruct (accounts (persisted w) !! idx); simpl; now run.
Qed.

Lemma length_reconciled (live : option CodexAuth) (pool : Pool) :
  length (reconciled live pool) = length (accounts pool).
Proof.
  unfold reconciled. destruct live; [|reflexivity].
  destruct (at_index _ _); [|reflexivity].
  destruct (same_account _ _); [apply length_insert|reflexivity].
Qed.

Lemma rotate_in_run (codex_home : bool) (advance : Z -> Z -> Z) (w : World) :
  (2 <= length (accounts (persisted w)))%nat ->
  rotate_in codex_home advance w =
    let pool := persisted w in
    let accs := reconciled (codex_auth w) pool in
    let new := advance (active_index pool) (Z.of_nat (length accs)) in
    match at_index accs new with
    | None => Threw w
    | Some next =>
        if codex_home || present (codex_auth w) then
          let w' := saved {| active_index := new; accounts := accs |}
                          (mirrored (AccountEntry.auth next) w) in
          match at_index accs (active_index pool) with
          | None => Threw w'
          | Some prev =>
              Returned tt
                (logged (Stdout (Rotated (AccountEntry.label prev)
                                         (AccountEntry.email prev)
                                         (AccountEntry.label next)
                                         (AccountEntry.email next)
                                         (AccountEntry.plan_type next)
                                         (new + 1) (length accs))) w')
          end
        else Threw w
    end.
Proof.
  intros Hlen. unfold rotate_in. run.
  destruct (accounts (persisted w)) as [|a [|b rest]] eqn:Hacc;
    [simpl in Hlen; lia | simpl in Hlen; lia |].
  rewrite <- Hacc. replace (length (accounts (persisted w)) =? 0)%nat with false
    by (rewrite Hacc; reflexivity).
  replace (length (accounts (persisted w)) =? 1)%nat with false
    by (rewrite Hacc; reflexivity).
  run. unfold reconciled.
  destruct (codex_auth w) as [currentAuth|] eqn:Hlive; cbn [present]; cbv iota.
  - run. rewrite Hlive. rewrite orb_true_r.
    destruct (at_index (accounts (persisted w)) (active_index (persisted w)))
      as [activeAccount|]; [destruct (same_account currentAuth activeAccount)|];
      run; cbn [active_index accounts];
      (destruct (at_index _ (advance _ _)) as [nxt|]; [|reflexivity]);
      cbn [defined]; run; rewrite Hlive; cbn [present]; rewrite orb_true_r; run;
      (destruct (at_index _ (active_index (persisted w))) as [prv|]);
      reflexivity.
  - run. cbn [active_index accounts].
    destruct (at_index _ (advance _ _)) as [nxt|]; [|reflexivity].
    cbn [defined]. run. rewrite Hlive. cbn [present].
    destruct codex_home; cbn [orb]; [|reflexivity]. run.
    destruct (at_index _ (active_index (persisted w))) as [prv|]; reflexivity.
Qed.

Lemma rotate_run (advance : Z -> Z -> Z) (w : World) :
  (2 <= length (accounts (persisted w)))%nat ->
  rotate advance w =
    let pool := persisted w in
    let accs := reconciled (codex_auth w) pool in
    let new := advance (active_index pool) (Z.of_nat (length accs)) in
    match at_index accs new with
    | None => Threw w
    | Some next =>
        let w' := saved {| active_index := new; accounts := accs |}
                        (mirrored (AccountEntry.auth next) w) in
        match at_index accs (active_index pool) with
        | None => Threw w'
        | Some prev =>
            Returned tt
              (logged (Stdout (Rotated (AccountEntry.label prev)
                                       (AccountEntry.email prev)
                                       (AccountEntry.label next)
                                       (AccountEntry.email next)
                                       (AccountEntry.plan_type next)
                                       (new + 1) (length accs))) w')
        end
    end.
Proof.
  intros Hlen. unfold rotate. rewrite (rotate_in_run _ _ _ Hlen). reflexivity.
Qed.

Lemma rotate_in_small (codex_home : bool) (advance : Z -> Z -> Z) (w : World) :
  (length (accounts (persisted w)) < 2)%nat ->
  rotate_in codex_home advance w =
    let r := if (length (accounts (persisted w)) =? 0)%nat
             then NoAccounts else OnlyOneAccount in
    Exited r (logged (Stderr r) w).
Proof.
  intros Hlen. unfold rotate_in. rewrite bind_run, loadPool_run.
  cbv beta iota zeta.
  destruct (accounts (persisted w)) as [|a [|b rest]]; simpl in *;
    [reflexivity | reflexivity | lia].
Qed.

(** Where the directory of the live file exists, [rotate_in] is [rotate]. *)
Lemma rotate_in_home (codex_home : bool) (advance : Z -> Z -> Z) (w : World) :
  codex_home || present (codex_auth w) = true ->
  rotate_in codex_home advance w = rotate advance w.
Proof.
  intros Hhome.
  destruct (Nat.lt_ge_cases (length (accounts (persisted w))) 2) as [Hlt|Hge].
  - unfold rotate. now rewrite !(rotate_in_small _ _ _ Hlt).
  - rewrite (rotate_in_run _ _ _ Hge), (rotate_run _ _ Hge). cbv zeta.
    destruct (at_index _ _); [|reflexivity]. now rewrite Hhome.
Qed.

(** Where it is missing, a rotation that gets as far as the write stops
    there, with nothing written. *)
Lemma rotate_in_no_home (advance : Z -> Z -> Z) (w : World) :
  (2 <= length (accounts (persisted w)))%nat ->
  codex_auth w = None ->
  rotate_in false advance w = Threw w.
Proof.
  intros Hge Hlive. rewrite (rotate_in_run _ _ _ Hge). cbv zeta.
  rewrite Hlive. cbn [present orb]. now destruct (at_index _ _).
Qed.

Lemma logged_all_nil (w : World) : logged_all [] w = w.
Proof. destruct w; reflexivity. Qed.

Lemma logged_all_logged (es : list Event) (e : Event) (w : World) :
  logged_all es (logged e w) = logged_all (es ++ [e]) w.
Proof. unfold logged_all, logged; simpl. now rewrite <- app_assoc. Qed.

Lemma list_rows_run (active : Z) (rows : list AccountEntry.t) :
  forall (i : nat) (w : World),
    list_rows active i rows w = Returned tt (logged_all (rows_printed active i rows) w).
Proof.
  induction rows as [|a rest IH]; intros i w; simpl.
  - now rewrite ret_run, logged_all_nil.
  - run. now rewrite IH, logged_all_logged.
Qed.

Lemma cmdList_run (w : World) :
  cmdList w =
    let pool := persisted w in
    if (length (accounts pool) =? 0)%nat
    then Returned tt (logged (Stdout NoAccountsInPool) w)
    else Returned tt
           (logged (Stdout BlankLine)
              (logged_all (rows_printed (active_index pool) 0 (accounts pool))
                 (logged (Stdout (ListHeader (length (accounts pool)))) w))).
Proof.
  unfold cmdList. run. cbv zeta.
  destruct (length (accounts (persisted w)) =? 0)%nat; run; [reflexivity|].
  rewrite list_rows_run. now run.
Qed.

Section Runs.

Variable base64_utf8 : string -> string.
Variable JSON_parse : string -> option JsValue.

Local Abbreviation status_printed := (status_printed base64_utf8 JSON_parse).

Local Abbreviation updated_entry := (updated_entry base64_utf8 JSON_parse).
Local Abbreviation updated_tokens := (updated_tokens base64_utf8 JSON_parse).
Local Abbreviation new_entry := (new_entry base64_utf8 JSON_parse).

Lemma cmdAdd_run (label : string) (w : World) :
  label <> "" ->
  cmdAdd base64_utf8 JSON_parse label w =
    match codex_auth w with
    | None => Exited AuthFileNotFound (logged (Stderr AuthFileNotFound) w)
    | Some auth =>
        let pool := persisted w in
        match findIndex (has_label label) (accounts pool) with
        | Some existing =>
            match accounts pool !! existing with
            | None => Threw w
            | Some entry =>
                Returned tt
                  (logged (Stdout (Updated label
                                     (AccountEntry.email (updated_entry auth entry))))
                     (saved {| active_index := Z.of_nat existing;
                               accounts := <[existing := updated_entry auth entry]>
                                             (accounts pool) |} w))
            end
        | None =>
            match findIndex (same_account auth) (accounts pool) with
            | Some j =>
                match accounts pool !! j with
                | None => Threw w
                | Some dupAcct =>
                    Returned tt
                      (saved {| active_index := active_index pool;
                                accounts := <[j := updated_tokens auth dupAcct]>
                                              (accounts pool) |}
                             (logged (Stdout (AlreadyInPool (AccountEntry.label dupAcct))) w))
                end
            | None =>
                let entry := new_entry label auth (now w) in
                let accounts' := accounts pool ++ [entry] in
                Returned tt
                  (logged (Stdout (Added label (AccountEntry.email entry)
                                         (AccountEntry.plan_type entry)
                                         (length accounts')))
                     (saved {| active_index := Z.of_nat (length accounts') - 1;
                               accounts := accounts' |} w))
            end
        end
    end.
Proof.
  intros Hlabel. unfold cmdAdd. rewrite (eqb_empty_label _ Hlabel). run.
  destruct (codex_auth w) as [auth|]; [|reflexivity].
  run. cbv zeta.
  destruct (findIndex (has_label label) _) as [existing|].
  - run. destruct (accounts (persisted w) !! existing); simpl; now run.
  - destruct (findIndex (same_account auth) _) as [j|].
    + run. destruct (accounts (persisted w) !! j); simpl; now run.
    + now run.
Qed.

Lemma cmdStatus_run (w : World) :
  cmdStatus base64_utf8 JSON_parse w =
    let pool := persisted w in
    if (0 <? length (accounts pool))%nat then
      match at_index (accounts pool) (active_index pool) with
      | Some active =>
          Returned tt
            (logged_all
               (status_printed (codex_auth w) pool
                  [Stdout (StatusActiveSlot (AccountEntry.label active)
                                            (active_index pool + 1)
                                            (length (accounts pool)))]) w)
      | None =>
          Threw (logged_all (tail (status_printed (codex_auth w) pool [])) w)
      end
    else Returned tt (logged_all (status_printed (codex_auth w) pool []) w).
Proof.
  unfold cmdStatus. run. cbv zeta.
  destruct (codex_auth w) as [auth|] eqn:Hlive; cbn [present]; cbv iota; run;
    rewrite ?Hlive; run;
    (destruct (0 <? length (accounts (persisted w)))%nat; run;
     [destruct (at_index _ _); simpl; run|]);
    unfold logged_all, logged; simpl; rewrite ?Hlive; reflexivity.
Qed.

End Runs.

(** ** Token inspector: decode failures *)

Section DecodeFailure.

Variable base64_utf8 : string -> string.
Variable JSON_parse : string -> option JsValue.

Local Abbreviation extract := (extract base64_utf8 JSON_parse).
Local Abbreviation payload_text := (payload_text base64_utf8).
Local Abbreviation decode_failure := (decode_failure base64_utf8 JSON_parse).

Lemma decodeJwtPayload_segments (jwt : string) :
  length (split_dot jwt) <> 3%nat ->
  decodeJwtPayload base64_utf8 JSON_parse jwt = Raise.
Proof.
  intros H. unfold decodeJwtPayload.
  destruct (length (split_dot jwt) =? 3)%nat eqn:E; [|reflexivity].
  apply Nat.eqb_eq in E. contradiction.
Qed.

Lemma decodeJwtPayload_three (jwt header part signature : string) :
  split_dot jwt = [header; part; signature] ->
  decodeJwtPayload base64_utf8 JSON_parse jwt =
    match JSON_parse (payload_text part) with
    | Some v => Value v
    | None => Raise
    end.
Proof. intros H. unfold decodeJwtPayload. rewrite H. reflexivity. Qed.

(** C7. Whenever the identity token fails to decode (it does not split into
    three dot-separated segments, the payload of its middle segment does not
    parse, or parses to something that is not a key-value document, or the
    field asked for is absent, be it that the document lacks it, lacks the
    nested document that holds the plan, or holds something there that is
    not a document), [extractEmailFromAuth] and
    [extractPlanFromAuth] return the string "unknown"; being total
    functions to values, they propagate no error. *)
Theorem C7_decode_failure_gives_unknown (auth : CodexAuth) (f : Field) :
  decode_failure auth f -> extract f auth = JStr "unknown".
Proof.
  intros H. inversion H as
      [f' Hseg | f' h p s Hsplit Hparse | f' h p s v Hsplit Hparse Hdoc
       | h p s fields Hsplit Hparse Hown | h p s fields Hsplit Hparse Hown
       | h p s fields x Hsplit Hparse Hown Hdoc
       | h p s fields info Hsplit Hparse Hown Hplan]; subst.
  - destruct f; unfold extract, extractEmailFromAuth, extractPlanFromAuth;
      now rewrite decodeJwtPayload_segments.
  - destruct f; unfold extract, extractEmailFromAuth, extractPlanFromAuth;
      rewrite (decodeJwtPayload_three _ _ _ _ Hsplit), Hparse; reflexivity.
  - destruct f; unfold extract, extractEmailFromAuth, extractPlanFromAuth;
      rewrite (decodeJwtPayload_three _ _ _ _ Hsplit), Hparse;
      destruct v; try discriminate; reflexivity.
  - unfold extract, extractEmailFromAuth.
    rewrite (decodeJwtPayload_three _ _ _ _ Hsplit), Hparse. simpl.
    now rewrite Hown.
  - unfold extract, extractPlanFromAuth.
    rewrite (decodeJwtPayload_three _ _ _ _ Hsplit), Hparse. simpl.
    fold auth_key. now rewrite Hown.
  - unfold extract, extractPlanFromAuth.
    rewrite (decodeJwtPayload_three _ _ _ _ Hsplit), Hparse. simpl.
    fold auth_key. rewrite Hown. destruct x; try discriminate; reflexivity.
  - unfold extract, extractPlanFromAuth.
    rewrite (decodeJwtPayload_three _ _ _ _ Hsplit), Hparse. simpl.
    fold auth_key. rewrite Hown. simpl. now rewrite Hplan.
Qed.

End DecodeFailure.

Lemma C7_witness :
  extract Sample.base64_utf8 Sample.JSON_parse Plan (Sample.credential "acct-1" "r0")
  = JStr "unknown".
Proof.
  apply C7_decode_failure_gives_unknown.
  apply (auth_info_absent _ _ _ "h" "mail" "s" [("email", JStr "a@x.com")]);
    reflexivity.
Defined.

(** ** remove of a label that is not in the pool *)

(** C6. For a non-empty label that no entry of the pool has, [remove]
    leaves through [die] with the "not found in pool" failure, and the pool
    file is what it was: nothing was written, only the message printed. *)
Theorem C6_remove_missing_label (label : string) (w : World) :
  label <> "" ->
  (forall e, e ∈ accounts (persisted w) -> AccountEntry.label e <> label) ->
  exists w',
    cmdRemove label w = Exited (AccountNotFound label) w'
    /\ pool_file w' = pool_file w
    /\ rotate_home w' = rotate_home w
    /\ codex_auth w' = codex_auth w
    /\ events w' = Stderr (AccountNotFound label) :: events w.
Proof.
  intros Hlabel Hmissing. rewrite (cmdRemove_run _ _ Hlabel). cbv zeta.
  assert (Hnone : findIndex (has_label label) (accounts (persisted w)) = None).
  { apply findIndex_None. intros e He. unfold has_label.
    apply String.eqb_neq. now apply Hmissing. }
  rewrite Hnone. eexists. repeat split; reflexivity.
Qed.

Lemma C6_witness :
  exists w',
    cmdRemove "nope" (Sample.world None (Some Sample.three_accounts))
    = Exited (AccountNotFound "nope") w'
    /\ pool_file w' = Some Sample.three_accounts
    /\ rotate_home w' = true
    /\ codex_auth w' = None
    /\ events w' = [Stderr (AccountNotFound "nope")].
Proof.
  apply (C6_remove_missing_label "nope"
           (Sample.world None (Some Sample.three_accounts))).
  - discriminate.
  - intros e He. simpl in He.
    repeat (apply elem_of_cons in He as [->|He]; [discriminate|]).
    inversion He.
Defined.

(** ** Rotation *)

Lemma at_index_lookup {A} (xs : list A) (i : Z) :
  0 <= i -> at_index xs i = xs !! Z.to_nat i.
Proof.
  intros H. unfold at_index. destruct (i <? 0) eqn:E; [|reflexivity].
  apply Z.ltb_lt in E. lia.
Qed.

Lemma at_index_is_Some {A} (xs : list A) (i : Z) :
  0 <= i < Z.of_nat (length xs) -> exists x, at_index xs i = Some x.
Proof.
  intros H. rewrite at_index_lookup by lia.
  apply lookup_lt_is_Some. lia.
Qed.

Lemma set_auth_same (e : AccountEntry.t) : set_auth (AccountEntry.auth e) e = e.
Proof. destruct e; reflexivity. Qed.

Lemma same_account_refl (e : AccountEntry.t) :
  same_account (AccountEntry.auth e) e = true.
Proof. unfold same_account. apply String.eqb_refl. Qed.

(** One rotation from a pool of two or more with the index in range. *)
Lemma rotate_step (advance : Z -> Z -> Z) (w : World) :
  let pool := persisted w in
  let n := Z.of_nat (length (accounts pool)) in
  let accs := reconciled (codex_auth w) pool in
  let new := advance (active_index pool) n in
  2 <= n -> in_range pool -> 0 <= new < n ->
  exists nxt m,
    accs !! Z.to_nat new = Some nxt
    /\ rotate advance w =
         Returned tt
           (logged (Stdout m)
              (saved {| active_index := new; accounts := accs |}
                     (mirrored (AccountEntry.auth nxt) w))).
Proof.
  intros pool n accs new Hn Hin Hnew.
  assert (Hlen : length accs = length (accounts pool))
    by apply length_reconciled.
  assert (Htwo : (2 <= length (accounts (persisted w)))%nat)
    by (unfold n, pool in Hn; lia).
  rewrite (rotate_run _ _ Htwo). cbv zeta. fold pool. fold accs.
  rewrite Hlen. fold n. fold new.
  destruct (at_index_is_Some accs new) as [nxt Hnxt]; [rewrite Hlen; lia|].
  destruct (at_index_is_Some accs (active_index pool)) as [prv Hprv];
    [rewrite Hlen; exact Hin|].
  rewrite Hnxt, Hprv. exists nxt. eexists. split; [|reflexivity].
  rewrite <- at_index_lookup by lia. exact Hnxt.
Qed.

Lemma next_index (i n : Z) :
  0 <= i < n -> Z.rem (i + 1) n = (i + 1) mod n /\ 0 <= Z.rem (i + 1) n < n.
Proof.
  intros H. rewrite Z.rem_mod_nonneg by lia. split; [reflexivity|].
  apply Z.mod_pos_bound. lia.
Qed.

Lemma prev_index (i n : Z) :
  0 <= i < n -> Z.rem (i - 1 + n) n = (i - 1) mod n /\ 0 <= Z.rem (i - 1 + n) n < n.
Proof.
  intros H. rewrite Z.rem_mod_nonneg by lia.
  replace (i - 1 + n) with (i - 1 + 1 * n) by lia. rewrite Z.mod_add by lia.
  split; [reflexivity|]. apply Z.mod_pos_bound. lia.
Qed.

(** C8. In a pool of [n >= 2] accounts with [0 <= i < n], [next] returns
    and leaves [active_index = (i + 1) mod n], [prev] returns and leaves
    [(i - 1) mod n]; from the last index [next] wraps to [0], and from [0]
    [prev] wraps to [n - 1]. *)
Theorem C8_next_prev_move_modulo (w : World) :
  let n := Z.of_nat (length (accounts (persisted w))) in
  let i := active_index (persisted w) in
  2 <= n -> 0 <= i < n ->
  (exists w', cmdNext w = Returned tt w'
              /\ active_index (persisted w') = (i + 1) mod n
              /\ (i = n - 1 -> active_index (persisted w') = 0))
  /\ (exists w', cmdPrev w = Returned tt w'
                 /\ active_index (persisted w') = (i - 1) mod n
                 /\ (i = 0 -> active_index (persisted w') = n - 1)).
Proof.
  intros n i Hn Hi. split.
  - destruct (next_index i n Hi) as [Hmod Hbound].
    destruct (rotate_step (fun i n => Z.rem (i + 1) n) w Hn Hi Hbound)
      as (nxt & m & _ & Hrun).
    eexists. split; [exact Hrun|]. cbn. fold n i. split; [exact Hmod|].
    intros ->. rewrite Hmod. replace (n - 1 + 1) with n by lia.
    apply Z.mod_same. lia.
  - destruct (prev_index i n Hi) as [Hmod Hbound].
    destruct (rotate_step (fun i n => Z.rem (i - 1 + n) n) w Hn Hi Hbound)
      as (nxt & m & _ & Hrun).
    eexists. split; [exact Hrun|]. cbn. fold n i. split; [exact Hmod|].
    intros ->. rewrite Hmod. replace (0 - 1) with (n - 1 + (-1) * n) by lia.
    rewrite Z.mod_add by lia. apply Z.mod_small. lia.
Qed.

Lemma C8_witness :
  (exists w', cmdNext (Sample.world None (Some Sample.three_accounts)) = Returned tt w'
              /\ active_index (persisted w') = (2 + 1) mod 3
              /\ (2 = 3 - 1 -> active_index (persisted w') = 0))
  /\ (exists w', cmdPrev (Sample.world None (Some Sample.three_accounts)) = Returned tt w'
                 /\ active_index (persisted w') = (2 - 1) mod 3
                 /\ (2 = 0 -> active_index (persisted w') = 3 - 1)).
Proof.
  apply (C8_next_prev_move_modulo (Sample.world None (Some Sample.three_accounts)));
    simpl; lia.
Defined.

Lemma times_succ (n : nat) (c : M unit) (w : World) :
  times (S n) c w = match c w with
                    | Returned _ w' => times n c w'
                    | Exited r w' => Exited r w'
                    | Threw w' => Threw w'
                    end.
Proof. reflexivity. Qed.

(** [k] rotations, each moving the index by [step] modulo the pool size. *)
Lemma times_rotate (advance : Z -> Z -> Z) (step : Z) :
  (forall i n, 0 <= i < n ->
               0 <= advance i n < n /\ advance i n = (i + step) mod n) ->
  forall (k : nat) (w : World),
    2 <= Z.of_nat (length (accounts (persisted w))) ->
    in_range (persisted w) ->
    exists w',
      times k (rotate advance) w = Returned tt w'
      /\ length (accounts (persisted w')) = length (accounts (persisted w))
      /\ active_index (persisted w')
         = (active_index (persisted w) + Z.of_nat k * step)
             mod Z.of_nat (length (accounts (persisted w))).
Proof.
  intros Hadv. induction k as [|k IH]; intros w Hn Hin.
  - exists w. repeat split. rewrite Z.add_0_r. symmetry.
    now apply Z.mod_small.
  - destruct (Hadv _ _ Hin) as [Hbound Hmod].
    destruct (rotate_step advance w Hn Hin Hbound) as (nxt & m & _ & Hrun).
    rewrite times_succ, Hrun.
    set (w1 := logged _ _).
    assert (Hlen1 : length (accounts (persisted w1))
                    = length (accounts (persisted w)))
      by apply length_reconciled.
    assert (Hidx1 : active_index (persisted w1)
                    = advance (active_index (persisted w))
                              (Z.of_nat (length (accounts (persisted w)))))
      by reflexivity.
    destruct (IH w1) as (w' & Hrun' & Hlen' & Hidx').
    + rewrite Hlen1. exact Hn.
    + unfold in_range. rewrite Hlen1, Hidx1. exact Hbound.
    + exists w'. split; [exact Hrun'|]. split; [congruence|].
      rewrite Hidx', Hlen1, Hidx1, Hmod, Zplus_mod_idemp_l.
      f_equal. lia.
Qed.

(** C3. In a pool of [n >= 2] accounts (with the index within the pool, as
    every pool the handlers write has it), [n] invocations of [next] all
    return and leave [active_index] where it was, and so do [n] invocations
    of [prev]. *)
Theorem C3_full_cycle_restores_index (w : World) :
  let n := length (accounts (persisted w)) in
  (2 <= n)%nat -> in_range (persisted w) ->
  (exists w', times n cmdNext w = Returned tt w'
              /\ active_index (persisted w') = active_index (persisted w))
  /\ (exists w', times n cmdPrev w = Returned tt w'
                 /\ active_index (persisted w') = active_index (persisted w)).
Proof.
  intros n Hn Hin. split.
  - destruct (times_rotate (fun i n => Z.rem (i + 1) n) 1) with (k := n) (w := w)
      as (w' & Hrun & _ & Hidx); [| fold n; lia | exact Hin |].
    + intros i m Hi. destruct (next_index i m Hi). split; assumption.
    + exists w'. split; [exact Hrun|]. rewrite Hidx. fold n.
      rewrite Z.mul_1_r.
      replace (active_index (persisted w) + Z.of_nat n)
        with (active_index (persisted w) + 1 * Z.of_nat n) by lia.
      rewrite Z.mod_add by lia. now apply Z.mod_small.
  - destruct (times_rotate (fun i n => Z.rem (i - 1 + n) n) (-1)) with (k := n) (w := w)
      as (w' & Hrun & _ & Hidx); [| fold n; lia | exact Hin |].
    + intros i m Hi. destruct (prev_index i m Hi) as [Hmod Hbound].
      split; [exact Hbound|]. rewrite Hmod. f_equal.
    + exists w'. split; [exact Hrun|]. rewrite Hidx. fold n.
      replace (active_index (persisted w) + Z.of_nat n * -1)
        with (active_index (persisted w) + (-1) * Z.of_nat n) by lia.
      rewrite Z.mod_add by lia. now apply Z.mod_small.
Qed.

Lemma C3_witness :
  (exists w', times 3 cmdNext (Sample.world None (Some Sample.three_accounts))
              = Returned tt w'
              /\ active_index (persisted w') = 2)
  /\ (exists w', times 3 cmdPrev (Sample.world None (Some Sample.three_accounts))
                 = Returned tt w'
                 /\ active_index (persisted w') = 2).
Proof.
  apply (C3_full_cycle_restores_index
           (Sample.world None (Some Sample.three_accounts)));
    [simpl; lia | unfold in_range; simpl; lia].
Defined.

(** C10, as amended.  With the live credential file absent but its
    directory [CODEX_HOME] in place, in a pool of [n >= 2] accounts (index
    within the pool) [next] and [prev] return: nothing is reconciled, so the
    stored accounts are what they were, the index moves by one modulo [n],
    and the live credential file now exists and holds the stored credential
    of the new active entry. *)
Theorem C10_rotation_without_live_file (codex_home : bool) (w : World) :
  let pool := persisted w in
  let n := Z.of_nat (length (accounts pool)) in
  let i := active_index pool in
  codex_home = true ->
  codex_auth w = None -> 2 <= n -> 0 <= i < n ->
  (exists w' nxt,
      cmdNext_in codex_home w = Returned tt w'
      /\ persisted w' = {| active_index := (i + 1) mod n; accounts := accounts pool |}
      /\ accounts pool !! Z.to_nat ((i + 1) mod n) = Some nxt
      /\ codex_auth w' = Some (AccountEntry.auth nxt))
  /\ (exists w' nxt,
         cmdPrev_in codex_home w = Returned tt w'
         /\ persisted w' = {| active_index := (i - 1) mod n; accounts := accounts pool |}
         /\ accounts pool !! Z.to_nat ((i - 1) mod n) = Some nxt
         /\ codex_auth w' = Some (AccountEntry.auth nxt)).
Proof.
  intros pool n i -> Hlive Hn Hi. unfold cmdNext_in, cmdPrev_in.
  rewrite !rotate_in_home by reflexivity. split.
  - destruct (next_index i n Hi) as [Hmod Hbound].
    destruct (rotate_step (fun i n => Z.rem (i + 1) n) w Hn Hi Hbound)
      as (nxt & m & Hnxt & Hrun).
    rewrite Hlive in Hnxt, Hrun. cbn [reconciled] in Hnxt, Hrun.
    fold pool n i in Hnxt, Hrun. rewrite Hmod in Hnxt, Hrun.
    eexists. exists nxt. split; [exact Hrun|]. repeat split. exact Hnxt.
  - destruct (prev_index i n Hi) as [Hmod Hbound].
    destruct (rotate_step (fun i n => Z.rem (i - 1 + n) n) w Hn Hi Hbound)
      as (nxt & m & Hnxt & Hrun).
    rewrite Hlive in Hnxt, Hrun. cbn [reconciled] in Hnxt, Hrun.
    fold pool n i in Hnxt, Hrun. rewrite Hmod in Hnxt, Hrun.
    eexists. exists nxt. split; [exact Hrun|]. repeat split. exact Hnxt.
Qed.

Lemma C10_witness :
  (exists w' nxt,
      cmdNext_in true (Sample.world None (Some Sample.two_accounts)) = Returned tt w'
      /\ persisted w' = {| active_index := (0 + 1) mod 2;
                           accounts := accounts Sample.two_accounts |}
      /\ accounts Sample.two_accounts !! Z.to_nat ((0 + 1) mod 2) = Some nxt
      /\ codex_auth w' = Some (AccountEntry.auth nxt))
  /\ (exists w' nxt,
         cmdPrev_in true (Sample.world None (Some Sample.two_accounts)) = Returned tt w'
         /\ persisted w' = {| active_index := (0 - 1) mod 2;
                              accounts := accounts Sample.two_accounts |}
         /\ accounts Sample.two_accounts !! Z.to_nat ((0 - 1) mod 2) = Some nxt
         /\ codex_auth w' = Some (AccountEntry.auth nxt)).
Proof.
  apply (C10_rotation_without_live_file true
           (Sample.world None (Some Sample.two_accounts)));
    [reflexivity | reflexivity | simpl; lia | simpl; lia].
Defined.

(** C10 as stated fails: the live credential file is absent because its
    directory [CODEX_HOME] is missing.  In a pool of two with index 0,
    [next] and [prev] stop on the [ENOENT] of the write: neither returns,
    the live file is not created, the pool file and the index are what they
    were. *)
Lemma C10_counterexample :
  (2 <= length (accounts Sample.two_accounts))%nat
  /\ in_range Sample.two_accounts
  /\ codex_auth (Sample.world None (Some Sample.two_accounts)) = None
  /\ cmdNext_in false (Sample.world None (Some Sample.two_accounts))
     = Threw (Sample.world None (Some Sample.two_accounts))
  /\ cmdPrev_in false (Sample.world None (Some Sample.two_accounts))
     = Threw (Sample.world None (Some Sample.two_accounts)).
Proof.
  split; [simpl; lia|]. split; [unfold in_range; simpl; lia|].
  split; [reflexivity|]. split; reflexivity.
Qed.

(** ** next then prev *)

Lemma prev_after_next_index (i n : Z) :
  2 <= n -> 0 <= i < n ->
  Z.rem (i + 1) n <> i /\ Z.rem (Z.rem (i + 1) n - 1 + n) n = i.
Proof.
  intros Hn Hi. destruct (Z.eq_dec (i + 1) n) as [E|E].
  - rewrite E, Z.rem_same by lia. split; [lia|].
    replace (0 - 1 + n) with i by lia. apply Z.rem_small. lia.
  - rewrite (Z.rem_small (i + 1) n) by lia. split; [lia|].
    rewrite Z.rem_mod_nonneg by lia.
    replace (i + 1 - 1 + n) with (i + 1 * n) by lia.
    rewrite Z.mod_add by lia. apply Z.mod_small. lia.
Qed.

Lemma next_after_prev_index (i n : Z) :
  2 <= n -> 0 <= i < n ->
  Z.rem (i - 1 + n) n <> i /\ Z.rem (Z.rem (i - 1 + n) n + 1) n = i.
Proof.
  intros Hn Hi. destruct (Z.eq_dec i 0) as [E|E].
  - subst i. replace (0 - 1 + n) with (n - 1) by lia.
    rewrite (Z.rem_small (n - 1) n) by lia. split; [lia|].
    replace (n - 1 + 1) with n by lia. apply Z.rem_same. lia.
  - rewrite (Z.rem_mod_nonneg (i - 1 + n) n) by lia.
    replace (i - 1 + n) with (i - 1 + 1 * n) by lia.
    rewrite Z.mod_add, Z.mod_small by lia. split; [lia|].
    replace (i - 1 + 1) with i by lia. apply Z.rem_small. lia.
Qed.

(** A rotation and then the rotation that undoes its move, when the live
    credential belongs to the active entry. *)
Lemma rotate_there_and_back (there back : Z -> Z -> Z) (w : World)
    (live : CodexAuth) (act : AccountEntry.t) :
  let pool := persisted w in
  let n := Z.of_nat (length (accounts pool)) in
  let i := active_index pool in
  2 <= n -> 0 <= i < n ->
  codex_auth w = Some live ->
  accounts pool !! Z.to_nat i = Some act ->
  same_account live act = true ->
  0 <= there i n < n -> there i n <> i -> back (there i n) n = i ->
  exists w',
    (rotate there >> rotate back) w = Returned tt w'
    /\ active_index (persisted w') = i
    /\ codex_auth w' = Some live.
Proof.
  intros pool n i Hn Hi Hlive Hact Hsame Hthere Hne Hback.
  destruct (rotate_step there w Hn Hi Hthere) as (nxt & m & Hnxt & Hrun).
  fold pool n i in Hnxt, Hrun.
  assert (Haccs : reconciled (codex_auth w) pool
                  = <[Z.to_nat i := set_auth live act]> (accounts pool)).
  { unfold reconciled. rewrite Hlive. fold i.
    rewrite at_index_lookup by lia. now rewrite Hact, Hsame. }
  rewrite Haccs in Hnxt, Hrun. set (accs := <[_ := _]> _) in *.
  assert (Hlen : length accs = length (accounts pool)) by apply length_insert.
  rewrite bind_run, Hrun. set (w1 := logged _ _).
  assert (Hp1 : persisted w1 = {| active_index := there i n; accounts := accs |})
    by reflexivity.
  assert (Hrec : reconciled (codex_auth w1) (persisted w1) = accs).
  { rewrite Hp1. unfold reconciled. cbn.
    rewrite at_index_lookup by lia. rewrite Hnxt, same_account_refl, set_auth_same.
    now apply list_insert_id. }
  destruct (rotate_step back w1) as (nxt' & m' & Hnxt' & Hrun').
  - rewrite Hp1. cbn. rewrite Hlen. exact Hn.
  - rewrite Hp1. unfold in_range. cbn. rewrite Hlen. exact Hthere.
  - rewrite Hp1. cbn. rewrite Hlen. fold n. rewrite Hback. exact Hi.
  - rewrite Hrec, Hp1 in Hnxt', Hrun'. cbn [active_index accounts] in Hnxt', Hrun'.
    rewrite Hlen in Hnxt', Hrun'. fold n in Hnxt', Hrun'.
    rewrite Hback in Hnxt', Hrun'.
    unfold accs in Hnxt'. rewrite list_lookup_insert_eq in Hnxt'
      by (unfold n in Hi; lia).
    injection Hnxt' as <-.
    eexists. split; [exact Hrun'|]. split; reflexivity.
Qed.

(** C2, as amended.  In a pool of [n >= 2] accounts with the index within
    the pool, when the live credential file exists and carries the account
    identifier of the active entry's stored credential, [next] then [prev],
    and [prev] then [next], return, and leave [active_index] and the content
    of the live credential file as they were. *)
Theorem C2_next_prev_round_trip (w : World) (live : CodexAuth)
    (act : AccountEntry.t) :
  let pool := persisted w in
  let n := Z.of_nat (length (accounts pool)) in
  let i := active_index pool in
  2 <= n -> 0 <= i < n ->
  codex_auth w = Some live ->
  accounts pool !! Z.to_nat i = Some act ->
  Tokens.account_id (tokens (AccountEntry.auth act))
  = Tokens.account_id (tokens live) ->
  (exists w', (cmdNext >> cmdPrev) w = Returned tt w'
              /\ active_index (persisted w') = i
              /\ codex_auth w' = Some live)
  /\ (exists w', (cmdPrev >> cmdNext) w = Returned tt w'
                 /\ active_index (persisted w') = i
                 /\ codex_auth w' = Some live).
Proof.
  intros pool n i Hn Hi Hlive Hact Hid.
  assert (Hsame : same_account live act = true)
    by (unfold same_account; now apply String.eqb_eq).
  split.
  - destruct (prev_after_next_index i n Hn Hi) as [Hne Hback].
    apply (rotate_there_and_back _ _ w live act); auto.
    now apply next_index.
  - destruct (next_after_prev_index i n Hn Hi) as [Hne Hback].
    apply (rotate_there_and_back _ _ w live act); auto.
    now apply prev_index.
Qed.

Lemma C2_witness :
  let w := Sample.world (Some (Sample.credential "acct-1" "r1"))
                        (Some Sample.two_accounts) in
  (exists w', (cmdNext >> cmdPrev) w = Returned tt w'
              /\ active_index (persisted w') = 0
              /\ codex_auth w' = Some (Sample.credential "acct-1" "r1"))
  /\ (exists w', (cmdPrev >> cmdNext) w = Returned tt w'
                 /\ active_index (persisted w') = 0
                 /\ codex_auth w' = Some (Sample.credential "acct-1" "r1")).
Proof.
  apply (C2_next_prev_round_trip
           (Sample.world (Some (Sample.credential "acct-1" "r1"))
                         (Some Sample.two_accounts))
           (Sample.credential "acct-1" "r1")
           (Sample.entry "personal" "acct-1"));
    [simpl; lia | simpl; lia | reflexivity | reflexivity | reflexivity].
Defined.

(** C2 as stated fails: the live credential file holds a credential of an
    account that is not the active entry's (a login that was not added).
    [next] then [prev] returns to index 0, but the live file now holds the
    stored credential of entry 0, not what it held before. *)
Lemma C2_counterexample :
  (2 <= length (accounts Sample.two_accounts))%nat
  /\ in_range Sample.two_accounts
  /\ exists w',
       (cmdNext >> cmdPrev)
         (Sample.world (Some (Sample.credential "acct-9" "r1"))
                       (Some Sample.two_accounts))
       = Returned tt w'
       /\ active_index (persisted w') = 0
       /\ codex_auth w' = Some (Sample.credential "acct-1" "r0")
       /\ codex_auth w' <> Some (Sample.credential "acct-9" "r1").
Proof.
  split; [simpl; lia|]. split; [unfold in_range; simpl; lia|].
  eexists. split; [vm_compute; reflexivity|].
  split; [reflexivity|]. split; [reflexivity|]. discriminate.
Qed.

(** ** Who writes the live credential file *)

Lemma auth_writes_logged (e : Event) (w : World) :
  is_WriteAuth e = false -> auth_writes (logged e w) = auth_writes w.
Proof. intros H. unfold auth_writes, logged. simpl. now rewrite H. Qed.

Lemma auth_writes_saved (pool : Pool) (w : World) :
  auth_writes (saved pool w) = auth_writes w.
Proof. unfold auth_writes, saved. simpl. now destruct (rotate_home w). Qed.

Lemma auth_writes_mirrored (auth : CodexAuth) (w : World) :
  auth_writes (mirrored auth w) = S (auth_writes w).
Proof. reflexivity. Qed.

Lemma auth_writes_logged_all (es : list Event) (w : World) :
  List.filter is_WriteAuth es = [] ->
  auth_writes (logged_all es w) = auth_writes w.
Proof.
  intros H. unfold auth_writes, logged_all. simpl.
  now rewrite List.filter_app, H.
Qed.

Lemma rows_printed_no_write (active : Z) (rows : list AccountEntry.t) :
  forall i, List.filter is_WriteAuth (rows_printed active i rows) = [].
Proof.
  induction rows as [|a rest IH]; intros i; simpl; [reflexivity|].
  now rewrite List.filter_app, IH.
Qed.

Section Frame.

Variable base64_utf8 : string -> string.
Variable JSON_parse : string -> option JsValue.

Lemma status_printed_no_write (live : option CodexAuth) (pool : Pool)
    (slot : list Event) :
  List.filter is_WriteAuth slot = [] ->
  List.filter is_WriteAuth (status_printed base64_utf8 JSON_parse live pool slot) = [].
Proof.
  intros H. unfold status_printed. simpl.
  rewrite List.filter_app, H. now destruct live.
Qed.

Lemma cmdAdd_empty_label (w : World) :
  cmdAdd base64_utf8 JSON_parse "" w = Exited UsageAdd (logged (Stderr UsageAdd) w).
Proof. reflexivity. Qed.

Lemma cmdRemove_empty_label (w : World) :
  cmdRemove "" w = Exited UsageRemove (logged (Stderr UsageRemove) w).
Proof. reflexivity. Qed.

Lemma string_empty_or_not (s : string) : s = "" \/ s <> "".
Proof. destruct s; [now left | now right]. Qed.

Lemma cmdAdd_frame (label : string) (w : World) :
  codex_auth (world_of (cmdAdd base64_utf8 JSON_parse label w)) = codex_auth w
  /\ auth_writes (world_of (cmdAdd base64_utf8 JSON_parse label w)) = auth_writes w.
Proof.
  destruct (string_empty_or_not label) as [->|Hlabel].
  - rewrite cmdAdd_empty_label. now split.
  - rewrite (cmdAdd_run _ _ _ _ Hlabel). cbv zeta.
    destruct (codex_auth w) as [auth|] eqn:Hlive; [|now split].
    destruct (findIndex (has_label label) _) as [existing|].
    + destruct (_ !! existing); simpl; [|now split]. split; [exact Hlive|].
      now rewrite auth_writes_logged, auth_writes_saved.
    + destruct (findIndex (same_account auth) _) as [j|].
      * destruct (_ !! j); simpl; [|now split]. split; [exact Hlive|].
        now rewrite auth_writes_saved, auth_writes_logged.
      * simpl. split; [exact Hlive|].
        now rewrite auth_writes_logged, auth_writes_saved.
Qed.

Lemma cmdList_frame (w : World) :
  codex_auth (world_of (cmdList w)) = codex_auth w
  /\ auth_writes (world_of (cmdList w)) = auth_writes w.
Proof.
  rewrite cmdList_run. cbv zeta.
  destruct (length (accounts (persisted w)) =? 0)%nat; simpl; split;
    try reflexivity.
  rewrite auth_writes_logged, auth_writes_logged_all, auth_writes_logged;
    auto using rows_printed_no_write.
Qed.

Lemma cmdStatus_frame (w : World) :
  codex_auth (world_of (cmdStatus base64_utf8 JSON_parse w)) = codex_auth w
  /\ auth_writes (world_of (cmdStatus base64_utf8 JSON_parse w)) = auth_writes w.
Proof.
  rewrite cmdStatus_run. cbv zeta.
  destruct (0 <? length (accounts (persisted w)))%nat;
    [destruct (at_index _ _)|]; simpl; (split; [reflexivity|]).
  - apply auth_writes_logged_all. now apply status_printed_no_write.
  - apply auth_writes_logged_all.
    pose proof (status_printed_no_write (codex_auth w) (persisted w) [] eq_refl) as H.
    unfold status_printed in *. simpl in *. exact H.
  - apply auth_writes_logged_all. now apply status_printed_no_write.
Qed.

Lemma cmdRemove_frame (label : string) (w : World) :
  codex_auth (world_of (cmdRemove label w)) = codex_auth w
  /\ auth_writes (world_of (cmdRemove label w)) = auth_writes w.
Proof.
  destruct (string_empty_or_not label) as [->|Hlabel].
  - rewrite cmdRemove_empty_label. now split.
  - rewrite (cmdRemove_run _ _ Hlabel). cbv zeta.
    destruct (findIndex _ _) as [idx|]; [|now split].
    destruct (_ !! idx); simpl; [|now split]. split; [reflexivity|].
    now rewrite auth_writes_logged, auth_writes_saved.
Qed.

(** A rotation that returns went past both [die]s. *)
Lemma rotate_returned_two (advance : Z -> Z -> Z) (w w' : World) :
  rotate advance w = Returned tt w' ->
  (2 <= length (accounts (persisted w)))%nat.
Proof.
  unfold rotate, rotate_in. rewrite bind_run, loadPool_run.
  destruct (accounts (persisted w)) as [|a [|b rest]]; simpl;
    [discriminate | discriminate | lia].
Qed.

Lemma rotate_writes (advance : Z -> Z -> Z) (w w' : World) :
  rotate advance w = Returned tt w' ->
  auth_writes w' = S (auth_writes w) /\ codex_auth w' <> None.
Proof.
  intros Hrun. pose proof (rotate_returned_two _ _ _ Hrun) as Htwo.
  rewrite (rotate_run _ _ Htwo) in Hrun. cbv zeta in Hrun.
  destruct (at_index _ _) as [nxt|]; [|discriminate].
  destruct (at_index _ _) as [prv|]; [|discriminate].
  injection Hrun as <-. split; [|discriminate].
  now rewrite auth_writes_logged, auth_writes_saved, auth_writes_mirrored.
Qed.

(** C9. From every world, [add], [list], [status] and [remove] end (by
    returning, through [die] or on an exception) with the live credential
    file holding what it held and without having written it; [remove] in
    particular, whatever entry it removes.  [next] and [prev], when they
    return, have written it once. *)
Theorem C9_only_rotation_writes_live_file (label : string) (w : World) :
  (codex_auth (world_of (cmdAdd base64_utf8 JSON_parse label w)) = codex_auth w
   /\ auth_writes (world_of (cmdAdd base64_utf8 JSON_parse label w)) = auth_writes w)
  /\ (codex_auth (world_of (cmdList w)) = codex_auth w
      /\ auth_writes (world_of (cmdList w)) = auth_writes w)
  /\ (codex_auth (world_of (cmdStatus base64_utf8 JSON_parse w)) = codex_auth w
      /\ auth_writes (world_of (cmdStatus base64_utf8 JSON_parse w)) = auth_writes w)
  /\ (codex_auth (world_of (cmdRemove label w)) = codex_auth w
      /\ auth_writes (world_of (cmdRemove label w)) = auth_writes w)
  /\ (forall w', cmdNext w = Returned tt w' ->
                 auth_writes w' = S (auth_writes w) /\ codex_auth w' <> None)
  /\ (forall w', cmdPrev w = Returned tt w' ->
                 auth_writes w' = S (auth_writes w) /\ codex_auth w' <> None).
Proof.
  split; [apply cmdAdd_frame|]. split; [apply cmdList_frame|].
  split; [apply cmdStatus_frame|]. split; [apply cmdRemove_frame|].
  split; intros w'; apply rotate_writes.
Qed.

End Frame.

Lemma C9_witness :
  auth_writes (world_of (cmdNext (Sample.world (Some (Sample.credential "acct-3" "r1"))
                                               (Some Sample.three_accounts)))) = 1%nat
  /\ codex_auth (world_of (cmdRemove "lab"
                             (Sample.world (Some (Sample.credential "acct-3" "r1"))
                                           (Some Sample.three_accounts))))
     = Some (Sample.credential "acct-3" "r1").
Proof.
  destruct (C9_only_rotation_writes_live_file
              Sample.base64_utf8 Sample.JSON_parse "lab"
              (Sample.world (Some (Sample.credential "acct-3" "r1"))
                            (Some Sample.three_accounts)))
    as (_ & _ & _ & [Hremove _] & Hnext & _).
  split; [exact (proj1 (Hnext _ eq_refl)) | exact Hremove].
Defined.

(** ** add *)

Section Add.

Variable base64_utf8 : string -> string.
Variable JSON_parse : string -> option JsValue.

Local Abbreviation add_result := (add_result base64_utf8 JSON_parse).

Local Abbreviation updated_entry := (updated_entry base64_utf8 JSON_parse).
Local Abbreviation updated_tokens := (updated_tokens base64_utf8 JSON_parse).
Local Abbreviation new_entry := (new_entry base64_utf8 JSON_parse).

Lemma cmdAdd_returned (label : string) (w w' : World) :
  cmdAdd base64_utf8 JSON_parse label w = Returned tt w' ->
  label <> ""
  /\ exists auth,
       codex_auth w = Some auth
       /\ add_result label auth (now w) (persisted w) (persisted w').
Proof.
  destruct (string_empty_or_not label) as [->|Hlabel];
    [rewrite cmdAdd_empty_label; discriminate|].
  rewrite (cmdAdd_run _ _ _ _ Hlabel). cbv zeta. intros Hrun.
  split; [exact Hlabel|].
  destruct (codex_auth w) as [auth|]; [|discriminate].
  exists auth. split; [reflexivity|].
  destruct (findIndex (has_label label) _) as [existing|] eqn:Hfind.
  - destruct (_ !! existing) as [entry|] eqn:Hentry; [|discriminate].
    injection Hrun as <-. now apply add_same_label.
  - destruct (findIndex (same_account auth) _) as [j|] eqn:Hdup.
    + destruct (_ !! j) as [dupAcct|] eqn:Hentry; [|discriminate].
      injection Hrun as <-. now apply add_same_account.
    + injection Hrun as <-. now apply add_new.
Qed.

Lemma cmdAdd_returns (label : string) (w : World) (auth : CodexAuth) :
  label <> "" -> codex_auth w = Some auth ->
  exists w', cmdAdd base64_utf8 JSON_parse label w = Returned tt w'.
Proof.
  intros Hlabel Hlive. rewrite (cmdAdd_run _ _ _ _ Hlabel), Hlive. cbv zeta.
  destruct (findIndex (has_label label) _) as [existing|] eqn:Hfind.
  - apply findIndex_Some in Hfind as (entry & -> & _). eauto.
  - destruct (findIndex (same_account auth) _) as [j|] eqn:Hdup; [|eauto].
    apply findIndex_Some in Hdup as (entry & -> & _). eauto.
Qed.

End Add.

(** ** The index stays within the pool *)

Lemma cmdList_pool_file (w : World) :
  pool_file (world_of (cmdList w)) = pool_file w.
Proof.
  rewrite cmdList_run. cbv zeta.
  now destruct (length (accounts (persisted w)) =? 0)%nat.
Qed.

Lemma persisted_world_of {A} (o : Outcome A) (a : A) (w w' : World) :
  o = Returned a w' -> pool_file (world_of o) = pool_file w ->
  persisted w' = persisted w.
Proof. intros -> H. unfold persisted. simpl in H. now rewrite H. Qed.

Lemma nonempty_length {A} (xs : list A) : xs <> [] <-> (0 < length xs)%nat.
Proof. destruct xs; simpl; split; intros; try congruence; lia. Qed.

Section Invariant.

Variable base64_utf8 : string -> string.
Variable JSON_parse : string -> option JsValue.

Lemma cmdStatus_pool_file (w : World) :
  pool_file (world_of (cmdStatus base64_utf8 JSON_parse w)) = pool_file w.
Proof.
  rewrite cmdStatus_run. cbv zeta.
  destruct (0 <? length (accounts (persisted w)))%nat;
    [destruct (at_index _ _)|]; reflexivity.
Qed.

(** The two halves of the invariant, from the size and the index. *)
Lemma in_range_or_reset (p : Pool) :
  ((0 < length (accounts p))%nat -> in_range p) ->
  (length (accounts p) = 0%nat -> active_index p = 0) ->
  (accounts p <> [] -> in_range p)
  /\ (accounts p = [] -> active_index p = 0).
Proof.
  intros Hpos Hzero. split.
  - intros H. now apply Hpos, nonempty_length.
  - intros H. apply Hzero. now rewrite H.
Qed.

Lemma add_result_in_range (label : string) (auth : CodexAuth) (added : string)
    (p p' : Pool) :
  in_range p ->
  add_result base64_utf8 JSON_parse label auth added p p' ->
  in_range p'.
Proof.
  intros Hin Hadd. unfold in_range in *.
  inversion Hadd as [existing entry Hfind Hentry | j dup Hnone Hfind Hentry
                     | Hnone Hnone']; subst; cbn [active_index accounts].
  - rewrite length_insert. apply findIndex_lt in Hfind. lia.
  - now rewrite length_insert.
  - rewrite length_app. simpl. lia.
Qed.

Lemma rotate_in_range (advance : Z -> Z -> Z) (w w' : World) :
  (forall i n, 0 <= i < n -> 0 <= advance i n < n) ->
  in_range (persisted w) ->
  rotate advance w = Returned tt w' ->
  in_range (persisted w').
Proof.
  intros Hadv Hin Hrun.
  pose proof (rotate_returned_two _ _ _ Hrun) as Htwo.
  destruct (rotate_step advance w) as (nxt & m & _ & Hstep);
    [lia | exact Hin | now apply Hadv |].
  rewrite Hstep in Hrun. injection Hrun as <-.
  unfold in_range. cbn. rewrite length_reconciled. now apply Hadv.
Qed.

Lemma cmdRemove_in_range (label : string) (w w' : World) :
  in_range (persisted w) ->
  cmdRemove label w = Returned tt w' ->
  (accounts (persisted w') <> [] -> in_range (persisted w'))
  /\ (accounts (persisted w') = [] -> active_index (persisted w') = 0).
Proof.
  intros Hin.
  destruct (string_empty_or_not label) as [->|Hlabel];
    [rewrite cmdRemove_empty_label; discriminate|].
  rewrite (cmdRemove_run _ _ Hlabel). cbv zeta.
  destruct (findIndex _ _) as [idx|]; [|discriminate].
  destruct (_ !! idx); [|discriminate]. intros [= <-].
  rewrite persisted_logged, persisted_saved.
  apply in_range_or_reset; cbn [active_index accounts];
    set (rest := delete idx _).
  - intros Hpos. unfold in_range. cbn [active_index accounts]. fold rest.
    destruct (length rest =? 0)%nat eqn:E0; [apply Nat.eqb_eq in E0; lia|].
    cbn [orb].
    destruct (Z.of_nat (length rest) <=? active_index (persisted w)) eqn:E;
      [lia|]. apply Z.leb_gt in E. unfold in_range in Hin. lia.
  - intros ->. reflexivity.
Qed.

(** C1. Start from a world whose pool is not empty and has
    [0 <= active_index < len(accounts)].  Whenever one of the handlers
    [add], [next], [prev], [list], [status], [remove] returns (it did not
    die), the pool on disk again has [0 <= active_index < len(accounts)]
    if it has accounts, and [active_index = 0] if it has none. *)
Theorem C1_active_index_stays_in_range (h : Handler) (w w' : World) :
  accounts (persisted w) <> [] -> in_range (persisted w) ->
  run_handler base64_utf8 JSON_parse h w = Returned tt w' ->
  (accounts (persisted w') <> [] -> in_range (persisted w'))
  /\ (accounts (persisted w') = [] -> active_index (persisted w') = 0).
Proof.
  intros Hne Hin Hrun.
  assert (Hkeep : in_range (persisted w') ->
                  (accounts (persisted w') <> [] -> in_range (persisted w'))
                  /\ (accounts (persisted w') = [] -> active_index (persisted w') = 0)).
  { intros H. split; [auto|]. intros E. unfold in_range in H.
    rewrite E in H. simpl in H. lia. }
  destruct h as [label| | | | |label]; simpl in Hrun.
  - apply Hkeep. apply cmdAdd_returned in Hrun as (_ & auth & _ & Hadd).
    eapply add_result_in_range; eauto.
  - apply Hkeep. eapply rotate_in_range; [|exact Hin|exact Hrun].
    intros i n Hi. now apply next_index.
  - apply Hkeep. eapply rotate_in_range; [|exact Hin|exact Hrun].
    intros i n Hi. now apply prev_index.
  - apply Hkeep.
    rewrite (persisted_world_of _ _ w _ Hrun (cmdList_pool_file w)). exact Hin.
  - apply Hkeep.
    rewrite (persisted_world_of _ _ w _ Hrun (cmdStatus_pool_file w)). exact Hin.
  - now apply (cmdRemove_in_range label w).
Qed.

End Invariant.

Lemma C1_witness :
  let w' := world_of (cmdRemove "lab" (Sample.world None (Some Sample.three_accounts))) in
  (accounts (persisted w') <> [] -> in_range (persisted w'))
  /\ (accounts (persisted w') = [] -> active_index (persisted w') = 0).
Proof.
  apply (C1_active_index_stays_in_range Sample.base64_utf8 Sample.JSON_parse
           (DoRemove "lab") (Sample.world None (Some Sample.three_accounts)));
    [discriminate | unfold in_range; simpl; lia | reflexivity].
Defined.

(** ** add, then list; add twice *)

Lemma findIndex_insert_same {A} (p : A -> bool) (xs : list A) (i : nat) (x y : A) :
  xs !! i = Some x -> p y = p x ->
  findIndex p (<[i := y]> xs) = findIndex p xs.
Proof.
  revert i. induction xs as [|a xs IH]; intros i; [discriminate|].
  destruct i as [|i]; simpl.
  - intros [= ->] ->. reflexivity.
  - intros Hx Hp. now rewrite (IH i Hx Hp).
Qed.

Lemma findIndex_elem {A} (p : A -> bool) (xs : list A) (x : A) :
  x ∈ xs -> p x = true -> findIndex p xs <> None.
Proof.
  intros Hx Hp Hnone. rewrite findIndex_None in Hnone.
  rewrite (Hnone x Hx) in Hp. discriminate.
Qed.

Lemma has_label_true (label : string) (e : AccountEntry.t) :
  has_label label e = true <-> AccountEntry.label e = label.
Proof. apply String.eqb_eq. Qed.

Lemma labels_insert (xs : list AccountEntry.t) (i : nat) (x y : AccountEntry.t) :
  xs !! i = Some x -> AccountEntry.label y = AccountEntry.label x ->
  AccountEntry.label <$> <[i := y]> xs = AccountEntry.label <$> xs.
Proof.
  intros Hx Hy. rewrite list_fmap_insert, Hy.
  apply list_insert_id. now rewrite list_lookup_fmap, Hx.
Qed.

Lemma rows_printed_elem (active : Z) (rows : list AccountEntry.t) :
  forall (i k : nat) (a : AccountEntry.t),
    rows !! k = Some a ->
    Stdout (ListRow (Z.of_nat (i + k) =? active) (AccountEntry.label a)
                    (AccountEntry.email a) (AccountEntry.plan_type a)
                    (String.substring 0 8 (AccountEntry.account_id a)))
    ∈ rows_printed active i rows.
Proof.
  induction rows as [|r rest IH]; intros i k a; [discriminate|].
  simpl. rewrite elem_of_app. destruct k as [|k]; simpl.
  - intros [= ->]. right. rewrite Nat.add_0_r. apply list_elem_of_singleton.
    reflexivity.
  - intros Hk. left. replace (i + S k)%nat with (S i + k)%nat by lia.
    now apply IH.
Qed.

(** [list] marks the entry [active_index] points at. *)
Lemma cmdList_marks_active (w : World) (e : AccountEntry.t) :
  at_index (accounts (persisted w)) (active_index (persisted w)) = Some e ->
  exists w'',
    cmdList w = Returned tt w''
    /\ Stdout (ListRow true (AccountEntry.label e) (AccountEntry.email e)
                       (AccountEntry.plan_type e)
                       (String.substring 0 8 (AccountEntry.account_id e)))
       ∈ events w''.
Proof.
  intros He. rewrite cmdList_run. cbv zeta.
  unfold at_index in He.
  destruct (active_index (persisted w) <? 0) eqn:Hneg; [discriminate|].
  apply Z.ltb_ge in Hneg.
  assert (Hlt : (Z.to_nat (active_index (persisted w))
                 < length (accounts (persisted w)))%nat)
    by (eapply lookup_lt_Some; eauto).
  destruct (length (accounts (persisted w)) =? 0)%nat eqn:E0;
    [apply Nat.eqb_eq in E0; lia|].
  eexists. split; [reflexivity|]. simpl.
  right. rewrite elem_of_app. left.
  pose proof (rows_printed_elem (active_index (persisted w)) _ 0 _ _ He) as Hrow.
  replace (Z.of_nat (0 + Z.to_nat (active_index (persisted w)))
           =? active_index (persisted w)) with true in Hrow; [exact Hrow|].
  symmetry. apply Z.eqb_eq. lia.
Qed.

Section AddClaims.

Variable base64_utf8 : string -> string.
Variable JSON_parse : string -> option JsValue.

(** After [add] returned in its first or third way, [active_index] points
    at an entry with the label. *)
Lemma add_result_active (label : string) (auth : CodexAuth) (added : string)
    (p p' : Pool) :
  add_result base64_utf8 JSON_parse label auth added p p' ->
  findIndex (has_label label) (accounts p) <> None
  \/ findIndex (same_account auth) (accounts p) = None ->
  exists e, at_index (accounts p') (active_index p') = Some e
            /\ AccountEntry.label e = label.
Proof.
  intros Hadd Hcase.
  inversion Hadd as [existing entry Hfind Hentry | j dup Hnone Hfind Hentry
                     | Hnone Hnone']; subst; cbn [active_index accounts].
  - exists (updated_entry base64_utf8 JSON_parse auth entry).
    rewrite at_index_lookup by lia. rewrite Nat2Z.id. split.
    + apply list_lookup_insert_eq. eapply lookup_lt_Some; eauto.
    + apply findIndex_Some in Hfind as (x & Hx & Hpx & _).
      rewrite Hx in Hentry. injection Hentry as <-.
      now apply has_label_true in Hpx.
  - destruct Hcase; congruence.
  - exists (new_entry base64_utf8 JSON_parse label auth added).
    rewrite at_index_lookup by (rewrite length_app; simpl; lia).
    split; [|reflexivity].
    rewrite length_app. simpl.
    replace (Z.to_nat (Z.of_nat (length (accounts p) + 1) - 1))
      with (length (accounts p) + 0)%nat by lia.
    now rewrite lookup_app_r, Nat.add_comm, Nat.add_sub by lia.
Qed.

(** After [add] returned in its first or second way, the pool has the
    entries it had, one of them updated under its own label. *)
Lemma add_result_in_place (label : string) (auth : CodexAuth) (added : string)
    (p p' : Pool) :
  add_result base64_utf8 JSON_parse label auth added p p' ->
  findIndex (has_label label) (accounts p) <> None
  \/ findIndex (same_account auth) (accounts p) <> None ->
  length (accounts p') = length (accounts p)
  /\ AccountEntry.label <$> accounts p' = AccountEntry.label <$> accounts p.
Proof.
  intros Hadd Hcase.
  inversion Hadd as [existing entry Hfind Hentry | j dup Hnone Hfind Hentry
                     | Hnone Hnone']; subst; cbn [active_index accounts].
  - split; [apply length_insert|]. now apply (labels_insert _ _ entry).
  - split; [apply length_insert|]. now apply (labels_insert _ _ dup).
  - destruct Hcase; congruence.
Qed.

(** Whatever way [add] returned, the same [add] now finds an entry. *)
Lemma add_result_found_again (label : string) (auth : CodexAuth) (added : string)
    (p p' : Pool) :
  add_result base64_utf8 JSON_parse label auth added p p' ->
  findIndex (has_label label) (accounts p') <> None
  \/ findIndex (same_account auth) (accounts p') <> None.
Proof.
  intros Hadd.
  inversion Hadd as [existing entry Hfind Hentry | j dup Hnone Hfind Hentry
                     | Hnone Hnone']; subst; cbn [active_index accounts].
  - left. rewrite (findIndex_insert_same _ _ _ entry) by auto. congruence.
  - right. rewrite (findIndex_insert_same _ _ _ dup); [congruence|exact Hentry|].
    apply findIndex_Some in Hfind as (x & Hx & Hpx & _).
    rewrite Hx in Hentry. injection Hentry as <-.
    rewrite Hpx. apply String.eqb_refl.
  - left. apply (findIndex_elem _ _ (new_entry base64_utf8 JSON_parse label auth added)).
    + apply elem_of_app. right. now apply list_elem_of_singleton.
    + apply String.eqb_refl.
Qed.

End AddClaims.

Section AddTheorems.

Variable base64_utf8 : string -> string.
Variable JSON_parse : string -> option JsValue.

(** C4, as amended.  After [add label] returned: if some entry had the
    label, or no entry's stored credential has the live credential's account
    identifier, then [active_index] points at an entry with that label, and
    a [list] run next marks that label as active.  In the remaining case (no
    entry has the label, some entry has the account identifier) the first
    entry of that account is updated in place under its own label: it takes
    the live credential, and the email and plan read from its token where
    these are strings, and keeps its label, cached account identifier and
    time of addition; the other entries, the labels and [active_index] are
    what they were. *)
Theorem C4_add_makes_label_active (label : string) (w w' : World)
    (live : CodexAuth) :
  cmdAdd base64_utf8 JSON_parse label w = Returned tt w' ->
  codex_auth w = Some live ->
  ((exists e, e ∈ accounts (persisted w) /\ AccountEntry.label e = label)
   \/ (forall e, e ∈ accounts (persisted w) ->
                 Tokens.account_id (tokens (AccountEntry.auth e))
                 <> Tokens.account_id (tokens live)) ->
   exists e,
     at_index (accounts (persisted w')) (active_index (persisted w')) = Some e
     /\ AccountEntry.label e = label
     /\ exists w'',
          cmdList w' = Returned tt w''
          /\ Stdout (ListRow true label (AccountEntry.email e)
                             (AccountEntry.plan_type e)
                             (String.substring 0 8 (AccountEntry.account_id e)))
             ∈ events w'')
  /\ ((forall e, e ∈ accounts (persisted w) -> AccountEntry.label e <> label) ->
      (exists e, e ∈ accounts (persisted w)
                 /\ Tokens.account_id (tokens (AccountEntry.auth e))
                    = Tokens.account_id (tokens live)) ->
      exists j dupAcct updated,
        accounts (persisted w) !! j = Some dupAcct
        /\ Tokens.account_id (tokens (AccountEntry.auth dupAcct))
           = Tokens.account_id (tokens live)
        /\ (forall k x, (k < j)%nat -> accounts (persisted w) !! k = Some x ->
                        Tokens.account_id (tokens (AccountEntry.auth x))
                        <> Tokens.account_id (tokens live))
        /\ accounts (persisted w') !! j = Some updated
        /\ AccountEntry.auth updated = live
        /\ (forall s, extractEmailFromAuth base64_utf8 JSON_parse live = JStr s ->
                      AccountEntry.email updated = JStr s)
        /\ (forall s, extractPlanFromAuth base64_utf8 JSON_parse live = JStr s ->
                      AccountEntry.plan_type updated = JStr s)
        /\ AccountEntry.label updated = AccountEntry.label dupAcct
        /\ AccountEntry.account_id updated = AccountEntry.account_id dupAcct
        /\ AccountEntry.added_at updated = AccountEntry.added_at dupAcct
        /\ (forall k, k <> j ->
                      accounts (persisted w') !! k = accounts (persisted w) !! k)
        /\ active_index (persisted w') = active_index (persisted w)
        /\ AccountEntry.label <$> accounts (persisted w')
           = AccountEntry.label <$> accounts (persisted w)).
Proof.
  intros Hrun Hlive.
  apply cmdAdd_returned in Hrun as (_ & auth & Hlive' & Hadd).
  rewrite Hlive in Hlive'. injection Hlive' as <-. split.
  - intros Hcase.
    destruct (add_result_active _ _ _ _ _ _ _ Hadd) as (e & He & Hlabel).
    { destruct Hcase as [(e & He & Hlabel)|Hnone].
      - left. apply (findIndex_elem _ _ e He). now apply has_label_true.
      - right. apply findIndex_None. intros e He. unfold same_account.
        apply String.eqb_neq. now apply Hnone. }
    exists e. split; [exact He|]. split; [exact Hlabel|].
    destruct (cmdList_marks_active w' e He) as (w'' & Hlist & Hrow).
    exists w''. split; [exact Hlist|]. now rewrite <- Hlabel.
  - intros Hnolabel (e & He & Hid).
    assert (Hnone : findIndex (has_label label) (accounts (persisted w)) = None).
    { apply findIndex_None. intros x Hx. unfold has_label.
      apply String.eqb_neq. now apply Hnolabel. }
    assert (Hsome : findIndex (same_account live) (accounts (persisted w)) <> None).
    { apply (findIndex_elem _ _ e He). unfold same_account. now apply String.eqb_eq. }
    remember (persisted w') as p' eqn:Hp'.
    inversion Hadd as [existing entry Hfind Hentry | j dup Hnone' Hfind Hentry
                       | Hnone' Hnone'']; subst p'; try congruence.
    cbn [accounts active_index].
    pose proof Hfind as Hfirst.
    apply findIndex_Some in Hfirst as (x & Hx & Hpx & Hbefore).
    rewrite Hx in Hentry. injection Hentry as <-.
    exists j, x, (updated_tokens base64_utf8 JSON_parse live x).
    split; [exact Hx|].
    split; [now apply String.eqb_eq|].
    split.
    { intros k y Hk Hy. specialize (Hbefore k y Hk Hy).
      unfold same_account in Hbefore. now apply String.eqb_neq. }
    split; [apply list_lookup_insert_eq; eapply lookup_lt_Some; eauto|].
    split; [reflexivity|].
    split; [intros s Hs; simpl; exact Hs|].
    split; [intros s Hs; simpl; exact Hs|].
    split; [reflexivity|]. split; [reflexivity|]. split; [reflexivity|].
    split; [intros k Hk; now apply list_lookup_insert_ne|].
    split; [reflexivity|].
    now apply (labels_insert _ _ x).
Qed.

(** C5. When [add label] returned, the same [add label] run again on the
    pool file it left, with the live credential it read, returns too, and
    the pool has the size (and the labels) it had after the first call: the
    second call updates an entry in place. *)
Theorem C5_add_twice_same_size (label : string) (w w1 v : World) :
  cmdAdd base64_utf8 JSON_parse label w = Returned tt w1 ->
  pool_file v = pool_file w1 ->
  codex_auth v = codex_auth w ->
  exists w2,
    cmdAdd base64_utf8 JSON_parse label v = Returned tt w2
    /\ length (accounts (persisted w2)) = length (accounts (persisted w1))
    /\ AccountEntry.label <$> accounts (persisted w2)
       = AccountEntry.label <$> accounts (persisted w1).
Proof.
  intros Hrun Hpool Hlive.
  apply cmdAdd_returned in Hrun as (Hlabel & auth & Hauth & Hadd).
  rewrite Hauth in Hlive.
  destruct (cmdAdd_returns base64_utf8 JSON_parse label v auth Hlabel Hlive)
    as (w2 & Hrun2).
  exists w2. split; [exact Hrun2|].
  apply cmdAdd_returned in Hrun2 as (_ & auth2 & Hauth2 & Hadd2).
  rewrite Hlive in Hauth2. injection Hauth2 as <-.
  assert (Hsame : persisted v = persisted w1)
    by (unfold persisted; now rewrite Hpool).
  rewrite Hsame in Hadd2.
  apply (add_result_in_place _ _ _ _ _ _ _ Hadd2).
  destruct (add_result_found_again _ _ _ _ _ _ _ Hadd) as [H|H]; [now left|now right].
Qed.

End AddTheorems.

Lemma C4_witness :
  let w' := world_of (cmdAdd Sample.base64_utf8 Sample.JSON_parse "work"
                        (Sample.world (Some (Sample.credential "acct-9" "r1")) None)) in
  exists e,
    at_index (accounts (persisted w')) (active_index (persisted w')) = Some e
    /\ AccountEntry.label e = "work"
    /\ exists w'',
         cmdList w' = Returned tt w''
         /\ Stdout (ListRow true "work" (AccountEntry.email e)
                            (AccountEntry.plan_type e)
                            (String.substring 0 8 (AccountEntry.account_id e)))
            ∈ events w''.
Proof.
  apply (proj1 (C4_add_makes_label_active Sample.base64_utf8 Sample.JSON_parse "work"
                  (Sample.world (Some (Sample.credential "acct-9" "r1")) None)
                  _ (Sample.credential "acct-9" "r1") eq_refl eq_refl)).
  right. intros e He. inversion He.
Defined.

(** C4 as stated fails in the case it names: the pool has no entry "other",
    the live credential is of the account stored under "personal"; [add]
    returns, and the pool still has no entry "other", its index unchanged. *)
Lemma C4_counterexample :
  exists w',
    cmdAdd Sample.base64_utf8 Sample.JSON_parse "other"
      (Sample.world (Some (Sample.credential "acct-1" "r1"))
                    (Some Sample.two_accounts))
    = Returned tt w'
    /\ AccountEntry.label <$> accounts (persisted w') = ["personal"; "work"]
    /\ active_index (persisted w') = 0
    /\ forall e, e ∈ accounts (persisted w') -> AccountEntry.label e <> "other".
Proof.
  eexists. split; [vm_compute; reflexivity|].
  split; [reflexivity|]. split; [reflexivity|].
  intros e He. simpl in He.
  repeat (apply elem_of_cons in He as [->|He]; [discriminate|]).
  inversion He.
Qed.

Lemma C5_witness :
  exists w2,
    cmdAdd Sample.base64_utf8 Sample.JSON_parse "work"
      (world_of (cmdAdd Sample.base64_utf8 Sample.JSON_parse "work"
                   (Sample.world (Some (Sample.credential "acct-9" "r1")) None)))
    = Returned tt w2
    /\ length (accounts (persisted w2)) = 1%nat
    /\ AccountEntry.label <$> accounts (persisted w2) = ["work"].
Proof.
  apply (C5_add_twice_same_size Sample.base64_utf8 Sample.JSON_parse "work"
           (Sample.world (Some (Sample.credential "acct-9" "r1")) None)
           _ _ eq_refl eq_refl eq_refl).
Defined.

(** * Further properties of the code *)

(** ** Rotation refuses small pools *)

Lemma rotate_small (advance : Z -> Z -> Z) (w : World) :
  (length (accounts (persisted w)) < 2)%nat ->
  rotate advance w =
    let r := if (length (accounts (persisted w)) =? 0)%nat
             then NoAccounts else OnlyOneAccount in
    Exited r (logged (Stderr r) w).
Proof.
  intros Hlen. unfold rotate, rotate_in. rewrite bind_run, loadPool_run.
  cbv beta iota zeta.
  destruct (accounts (persisted w)) as [|a [|b rest]]; simpl in *;
    [reflexivity | reflexivity | lia].
Qed.

(** X3. With an empty pool [next] and [prev] die with the no-accounts
    failure, with a pool of one account with the only-one-account failure;
    either way nothing is written: both files are what they were, whatever
    the live credential file holds. *)
Theorem X3_rotation_needs_two_accounts (w : World) :
  (length (accounts (persisted w)) < 2)%nat ->
  let r := if (length (accounts (persisted w)) =? 0)%nat
           then NoAccounts else OnlyOneAccount in
  exists w',
    cmdNext w = Exited r w' /\ cmdPrev w = Exited r w'
    /\ pool_file w' = pool_file w
    /\ codex_auth w' = codex_auth w
    /\ events w' = Stderr r :: events w.
Proof.
  intros Hlen r. unfold cmdNext, cmdPrev. rewrite !rotate_small by exact Hlen.
  cbv zeta. fold r. eexists. repeat split.
Qed.

Lemma X3_witness :
  exists w',
    cmdNext (Sample.world (Some (Sample.credential "acct-1" "r1"))
               (Some {| active_index := 0; accounts := [Sample.entry "solo" "acct-1"] |}))
    = Exited OnlyOneAccount w'
    /\ cmdPrev (Sample.world (Some (Sample.credential "acct-1" "r1"))
                  (Some {| active_index := 0; accounts := [Sample.entry "solo" "acct-1"] |}))
       = Exited OnlyOneAccount w'
    /\ pool_file w'
       = Some {| active_index := 0; accounts := [Sample.entry "solo" "acct-1"] |}
    /\ codex_auth w' = Some (Sample.credential "acct-1" "r1")
    /\ events w' = [Stderr OnlyOneAccount].
Proof.
  apply (X3_rotation_needs_two_accounts
           (Sample.world (Some (Sample.credential "acct-1" "r1"))
              (Some {| active_index := 0; accounts := [Sample.entry "solo" "acct-1"] |}))).
  simpl. lia.
Defined.

(** ** Failures come before writes; writes come at most once *)

Lemma filter_printed_only (f : Event -> bool) (es : list Event) :
  (forall m, f (Stdout m) = false) -> printed_only es -> List.filter f es = [].
Proof.
  intros Hf Hes. induction Hes as [|e es [m ->] _ IH]; simpl; [reflexivity|].
  now rewrite Hf.
Qed.

Lemma rows_printed_only (active : Z) (rows : list AccountEntry.t) :
  forall i, printed_only (rows_printed active i rows).
Proof.
  induction rows as [|a rest IH]; intros i; simpl; [constructor|].
  apply Forall_app. split; [apply IH|]. repeat constructor. eauto.
Qed.

Lemma status_printed_only (base64_utf8 : string -> string)
    (JSON_parse : string -> option JsValue) (live : option CodexAuth)
    (pool : Pool) (slot : list Event) :
  printed_only slot ->
  printed_only (status_printed base64_utf8 JSON_parse live pool slot).
Proof.
  intros Hslot. unfold status_printed, printed_only.
  apply Forall_cons. split; [eauto|].
  apply Forall_app. split; [exact Hslot|].
  destruct live; repeat (apply Forall_cons; split; [eauto|]); constructor.
Qed.

Lemma pool_writes_logged (e : Event) (w : World) :
  is_WritePool e = false -> pool_writes (logged e w) = pool_writes w.
Proof. intros H. unfold pool_writes, logged. simpl. now rewrite H. Qed.

Lemma pool_writes_saved (pool : Pool) (w : World) :
  pool_writes (saved pool w) = S (pool_writes w).
Proof. unfold pool_writes, saved. simpl. now destruct (rotate_home w). Qed.

Lemma pool_writes_mirrored (auth : CodexAuth) (w : World) :
  pool_writes (mirrored auth w) = pool_writes w.
Proof. reflexivity. Qed.

Lemma pool_writes_logged_all (es : list Event) (w : World) :
  printed_only es -> pool_writes (logged_all es w) = pool_writes w.
Proof.
  intros H. unfold pool_writes, logged_all. simpl.
  rewrite List.filter_app, (filter_printed_only is_WritePool es); auto.
Qed.

Lemma auth_writes_printed_only (es : list Event) (w : World) :
  printed_only es -> auth_writes (logged_all es w) = auth_writes w.
Proof.
  intros H. apply auth_writes_logged_all.
  now apply filter_printed_only.
Qed.

Section Writes.

Variable base64_utf8 : string -> string.
Variable JSON_parse : string -> option JsValue.

Local Abbreviation run_handler := (run_handler base64_utf8 JSON_parse).

Lemma rotate_exited (advance : Z -> Z -> Z) (w w' : World) (r : DieReason) :
  rotate advance w = Exited r w' -> w' = logged (Stderr r) w.
Proof.
  destruct (Nat.lt_ge_cases (length (accounts (persisted w))) 2) as [Hlt|Hge].
  - rewrite (rotate_small _ _ Hlt). cbv zeta. now intros [= <- <-].
  - rewrite (rotate_run _ _ Hge). cbv zeta.
    destruct (at_index _ _); [|discriminate].
    destruct (at_index _ _); discriminate.
Qed.

Lemma handler_exited (h : Handler) (w w' : World) (r : DieReason) :
  run_handler h w = Exited r w' -> w' = logged (Stderr r) w.
Proof.
  intros Hrun.
  destruct h as [label| | | | |label]; simpl in Hrun.
  - destruct (string_empty_or_not label) as [->|Hlabel].
    + rewrite cmdAdd_empty_label in Hrun. now injection Hrun as <- <-.
    + rewrite (cmdAdd_run _ _ _ _ Hlabel) in Hrun. cbv zeta in Hrun.
      destruct (codex_auth w) as [auth|]; [|now injection Hrun as <- <-].
      destruct (findIndex (has_label label) _) as [existing|].
      * destruct (_ !! existing); discriminate.
      * destruct (findIndex (same_account auth) _) as [j|]; [|discriminate].
        destruct (_ !! j); discriminate.
  - now apply (rotate_exited _ _ _ _ Hrun).
  - now apply (rotate_exited _ _ _ _ Hrun).
  - rewrite cmdList_run in Hrun. cbv zeta in Hrun.
    destruct (length _ =? 0)%nat; discriminate.
  - rewrite cmdStatus_run in Hrun. cbv zeta in Hrun.
    destruct (0 <? length _)%nat; [destruct (at_index _ _)|]; discriminate.
  - destruct (string_empty_or_not label) as [->|Hlabel].
    + rewrite cmdRemove_empty_label in Hrun. now injection Hrun as <- <-.
    + rewrite (cmdRemove_run _ _ Hlabel) in Hrun. cbv zeta in Hrun.
      destruct (findIndex _ _) as [idx|]; [|now injection Hrun as <- <-].
      destruct (_ !! idx); discriminate.
Qed.

(** X4. Whenever a handler leaves through [die], it has written nothing:
    the pool file, the directory and the live credential file are what they
    were, and the only thing done is the message on standard error. *)
Theorem X4_die_before_any_write (h : Handler) (w w' : World) (r : DieReason) :
  run_handler h w = Exited r w' ->
  pool_file w' = pool_file w
  /\ rotate_home w' = rotate_home w
  /\ codex_auth w' = codex_auth w
  /\ events w' = Stderr r :: events w.
Proof.
  intros Hrun. apply handler_exited in Hrun. subst w'. repeat split.
Qed.

Lemma rotate_write_counts (advance : Z -> Z -> Z) (w : World) :
  (pool_writes (world_of (rotate advance w)) <= S (pool_writes w))%nat
  /\ (auth_writes (world_of (rotate advance w)) <= S (auth_writes w))%nat
  /\ (forall w', rotate advance w = Returned tt w' ->
                 pool_writes w' = S (pool_writes w)).
Proof.
  destruct (Nat.lt_ge_cases (length (accounts (persisted w))) 2) as [Hlt|Hge].
  - rewrite (rotate_small _ _ Hlt). cbv zeta. simpl.
    rewrite pool_writes_logged, auth_writes_logged by reflexivity.
    repeat split; try lia. discriminate.
  - rewrite (rotate_run _ _ Hge). cbv zeta.
    destruct (at_index _ _) as [nxt|]; [|simpl; repeat split; try lia; discriminate].
    destruct (at_index _ _) as [prv|]; simpl.
    + rewrite pool_writes_logged, auth_writes_logged by reflexivity.
      rewrite pool_writes_saved, auth_writes_saved, pool_writes_mirrored,
        auth_writes_mirrored.
      repeat split; try lia. intros w' [= <-].
      now rewrite pool_writes_logged, pool_writes_saved, pool_writes_mirrored.
    + rewrite pool_writes_saved, auth_writes_saved, pool_writes_mirrored,
        auth_writes_mirrored.
      repeat split; try lia. discriminate.
Qed.

(** X5. In one invocation a handler writes the pool file at most once and
    the live credential file at most once, however it ends; [list] and
    [status] never write the pool file, and [add], [next], [prev] and
    [remove], when they return, have written it exactly once. *)
Theorem X5_at_most_one_write_per_file (h : Handler) (w : World) :
  (pool_writes (world_of (run_handler h w)) <= S (pool_writes w))%nat
  /\ (auth_writes (world_of (run_handler h w)) <= S (auth_writes w))%nat
  /\ (h = DoList \/ h = DoStatus ->
      pool_writes (world_of (run_handler h w)) = pool_writes w)
  /\ (forall w', run_handler h w = Returned tt w' ->
                 h <> DoList -> h <> DoStatus ->
                 pool_writes w' = S (pool_writes w)).
Proof.
  destruct h as [label| | | | |label]; simpl.
  - pose proof (cmdAdd_frame base64_utf8 JSON_parse label w) as [_ Hauth].
    rewrite Hauth. split; [|split; [lia|split; [intros [|]; discriminate|]]].
    + destruct (string_empty_or_not label) as [->|Hlabel];
        [rewrite cmdAdd_empty_label; simpl; rewrite pool_writes_logged by reflexivity; lia|].
      rewrite (cmdAdd_run _ _ _ _ Hlabel). cbv zeta.
      destruct (codex_auth w) as [auth|]; simpl;
        [|rewrite pool_writes_logged by reflexivity; lia].
      destruct (findIndex (has_label label) _) as [existing|].
      * destruct (_ !! existing); simpl; [|lia].
        rewrite pool_writes_logged, pool_writes_saved by reflexivity. lia.
      * destruct (findIndex (same_account auth) _) as [j|].
        -- destruct (_ !! j); simpl; [|lia].
           rewrite pool_writes_saved, pool_writes_logged by reflexivity. lia.
        -- simpl. rewrite pool_writes_logged, pool_writes_saved by reflexivity. lia.
    + intros w' Hrun _ _.
      destruct (string_empty_or_not label) as [->|Hlabel];
        [rewrite cmdAdd_empty_label in Hrun; discriminate|].
      rewrite (cmdAdd_run _ _ _ _ Hlabel) in Hrun. cbv zeta in Hrun.
      destruct (codex_auth w) as [auth|]; [|discriminate].
      destruct (findIndex (has_label label) _) as [existing|].
      * destruct (_ !! existing); [|discriminate]. injection Hrun as <-.
        now rewrite pool_writes_logged, pool_writes_saved.
      * destruct (findIndex (same_account auth) _) as [j|].
        -- destruct (_ !! j); [|discriminate]. injection Hrun as <-.
           now rewrite pool_writes_saved, pool_writes_logged.
        -- injection Hrun as <-.
           now rewrite pool_writes_logged, pool_writes_saved.
  - destruct (rotate_write_counts (fun i n => Z.rem (i + 1) n) w) as (Hp & Ha & Hr).
    repeat split; auto. intros [|]; discriminate.
  - destruct (rotate_write_counts (fun i n => Z.rem (i - 1 + n) n) w) as (Hp & Ha & Hr).
    repeat split; auto. intros [|]; discriminate.
  - pose proof (cmdList_frame w) as [_ Hauth]. rewrite Hauth.
    assert (Hpool : pool_writes (world_of (cmdList w)) = pool_writes w).
    { rewrite cmdList_run. cbv zeta.
      destruct (length _ =? 0)%nat; simpl;
        rewrite ?pool_writes_logged, ?pool_writes_logged_all by reflexivity;
        auto using rows_printed_only.
      rewrite pool_writes_logged_all by apply rows_printed_only.
      now rewrite pool_writes_logged. }
    rewrite Hpool. repeat split; try lia. intros w' _ H. now destruct H.
  - pose proof (cmdStatus_frame base64_utf8 JSON_parse w) as [_ Hauth]. rewrite Hauth.
    assert (Hpool : pool_writes (world_of (cmdStatus base64_utf8 JSON_parse w))
                    = pool_writes w).
    { rewrite cmdStatus_run. cbv zeta.
      destruct (0 <? length _)%nat; [destruct (at_index _ _)|]; simpl;
        apply pool_writes_logged_all.
      - apply status_printed_only. repeat constructor. eauto.
      - pose proof (status_printed_only base64_utf8 JSON_parse (codex_auth w)
                      (persisted w) [] ltac:(constructor)) as H.
        unfold status_printed in H. simpl in H.
        now apply Forall_cons in H as [_ H].
      - apply status_printed_only. constructor. }
    rewrite Hpool. repeat split; try lia. intros w' _ _ H. now destruct H.
  - pose proof (cmdRemove_frame label w) as [_ Hauth]. rewrite Hauth.
    split; [|split; [lia|split; [intros [|]; discriminate|]]].
    + destruct (string_empty_or_not label) as [->|Hlabel];
        [rewrite cmdRemove_empty_label; simpl; rewrite pool_writes_logged by reflexivity; lia|].
      rewrite (cmdRemove_run _ _ Hlabel). cbv zeta.
      destruct (findIndex _ _) as [idx|]; simpl;
        [|rewrite pool_writes_logged by reflexivity; lia].
      destruct (_ !! idx); simpl; [|lia].
      rewrite pool_writes_logged, pool_writes_saved by reflexivity. lia.
    + intros w' Hrun _ _.
      destruct (string_empty_or_not label) as [->|Hlabel];
        [rewrite cmdRemove_empty_label in Hrun; discriminate|].
      rewrite (cmdRemove_run _ _ Hlabel) in Hrun. cbv zeta in Hrun.
      destruct (findIndex _ _) as [idx|]; [|discriminate].
      destruct (_ !! idx); [|discriminate]. injection Hrun as <-.
      now rewrite pool_writes_logged, pool_writes_saved.
Qed.

End Writes.

Lemma X4_witness :
  let w := Sample.world None (Some Sample.two_accounts) in
  let w' := world_of (cmdAdd Sample.base64_utf8 Sample.JSON_parse "lab" w) in
  pool_file w' = pool_file w
  /\ rotate_home w' = rotate_home w
  /\ codex_auth w' = codex_auth w
  /\ events w' = Stderr AuthFileNotFound :: events w.
Proof.
  apply (X4_die_before_any_write Sample.base64_utf8 Sample.JSON_parse
           (DoAdd "lab") (Sample.world None (Some Sample.two_accounts))).
  reflexivity.
Defined.

Lemma X5_witness :
  pool_writes (world_of (cmdNext (Sample.world None (Some Sample.two_accounts))))
  = 1%nat.
Proof.
  apply (proj2 (proj2 (proj2
           (X5_at_most_one_write_per_file Sample.base64_utf8 Sample.JSON_parse
              DoNext (Sample.world None (Some Sample.two_accounts)))))
           _ eq_refl); discriminate.
Defined.

(** ** The command line *)

Section CommandLine.

Variable base64_utf8 : string -> string.
Variable JSON_parse : string -> option JsValue.

(** X6. A first argument that is none of the fourteen command words makes
    [main] die with the unknown-command failure naming it, whatever follows
    it on the command line, and nothing is written. *)
Theorem X6_unknown_command (command : string) (rest : list string) (w : World) :
  command ∉ known_commands ->
  exists w',
    main base64_utf8 JSON_parse (command :: rest) w
    = Exited (UnknownCommand command) w'
    /\ pool_file w' = pool_file w
    /\ codex_auth w' = codex_auth w
    /\ events w' = Stderr (UnknownCommand command) :: events w.
Proof.
  intros Hunknown. unfold known_commands in Hunknown.
  repeat (apply not_elem_of_cons in Hunknown as [?%String.eqb_neq Hunknown]).
  unfold main. cbn [head].
  repeat match goal with H : String.eqb _ _ = false |- _ => rewrite H; clear H end.
  cbn [orb]. rewrite die_run. eexists. repeat split.
Qed.

(** X7. What a command line can touch.  Unless its command word is
    [next], [n], [prev] or [p], an invocation leaves the live credential
    file as it was and never writes it; unless it is one of those or [add],
    [remove], [rm], it leaves the pool file as it was too.  This holds for
    every command line, the empty one and unknown words included, and
    however the invocation ends. *)
Theorem X7_what_a_command_line_can_touch (argv : list string) (w : World) :
  let w' := world_of (main base64_utf8 JSON_parse argv w) in
  ((forall c, head argv = Some c -> c ∉ ["next"; "n"; "prev"; "p"]) ->
   codex_auth w' = codex_auth w /\ auth_writes w' = auth_writes w)
  /\ ((forall c, head argv = Some c ->
                 c ∉ ["next"; "n"; "prev"; "p"; "add"; "remove"; "rm"]) ->
      pool_file w' = pool_file w).
Proof.
  intros w'. subst w'. unfold main. destruct argv as [|c rest]; cbn [head].
  - split; intros _; [split|]; reflexivity.
  - split; intros Hc; specialize (Hc c eq_refl);
      repeat (apply not_elem_of_cons in Hc as [?%String.eqb_neq Hc]);
      repeat match goal with H : String.eqb c _ = false |- _ => rewrite H; clear H end;
      cbn [orb].
    + destruct (String.eqb c "add"); [apply cmdAdd_frame|].
      destruct (String.eqb c "list" || String.eqb c "ls"); [apply cmdList_frame|].
      destruct (String.eqb c "status" || String.eqb c "s"); [apply cmdStatus_frame|].
      destruct (String.eqb c "remove" || String.eqb c "rm"); [apply cmdRemove_frame|].
      destruct (String.eqb c "help" || String.eqb c "--help" || String.eqb c "-h");
        split; reflexivity.
    + destruct (String.eqb c "list" || String.eqb c "ls"); [apply cmdList_pool_file|].
      destruct (String.eqb c "status" || String.eqb c "s");
        [apply cmdStatus_pool_file|].
      destruct (String.eqb c "help" || String.eqb c "--help" || String.eqb c "-h");
        reflexivity.
Qed.

End CommandLine.

Lemma X6_witness :
  exists w',
    main Sample.base64_utf8 Sample.JSON_parse ["rotate"; "now"]
         (Sample.world None (Some Sample.two_accounts))
    = Exited (UnknownCommand "rotate") w'
    /\ pool_file w' = Some Sample.two_accounts
    /\ codex_auth w' = None
    /\ events w' = [Stderr (UnknownCommand "rotate")].
Proof.
  apply (X6_unknown_command Sample.base64_utf8 Sample.JSON_parse "rotate" ["now"]
           (Sample.world None (Some Sample.two_accounts))).
  unfold known_commands. intros H.
  repeat (apply elem_of_cons in H as [H|H]; [discriminate H|]).
  inversion H.
Defined.

Lemma X7_witness :
  let w := Sample.world (Some (Sample.credential "acct-9" "r1"))
                        (Some Sample.two_accounts) in
  let w' := world_of (main Sample.base64_utf8 Sample.JSON_parse ["rm"; "work"] w) in
  codex_auth w' = codex_auth w /\ auth_writes w' = auth_writes w.
Proof.
  apply (proj1 (X7_what_a_command_line_can_touch Sample.base64_utf8 Sample.JSON_parse
                  ["rm"; "work"]
                  (Sample.world (Some (Sample.credential "acct-9" "r1"))
                                (Some Sample.two_accounts)))).
  intros c [= <-] H.
  repeat (apply elem_of_cons in H as [H|H]; [discriminate H|]).
  inversion H.
Defined.

(** ** remove *)

Lemma cmdRemove_found (label : string) (w : World) (idx : nat) :
  label <> "" ->
  findIndex (has_label label) (accounts (persisted w)) = Some idx ->
  exists removed,
    accounts (persisted w) !! idx = Some removed
    /\ AccountEntry.label removed = label
    /\ cmdRemove label w =
         let accounts' := delete idx (accounts (persisted w)) in
         let active' :=
           if (length accounts' =? 0)%nat
              || (Z.of_nat (length accounts') <=? active_index (persisted w))
           then 0 else active_index (persisted w) in
         Returned tt
           (logged (Stdout (Removed (AccountEntry.label removed)
                                    (AccountEntry.email removed)
                                    (length accounts')))
                   (saved {| active_index := active'; accounts := accounts' |} w)).
Proof.
  intros Hlabel Hfind. rewrite (cmdRemove_run _ _ Hlabel). cbv zeta.
  rewrite Hfind. apply findIndex_Some in Hfind as (removed & Hidx & Hp & _).
  exists removed. rewrite Hidx. split; [reflexivity|].
  split; [now apply has_label_true|reflexivity].
Qed.

(** X8. [remove] of a non-empty label that some entry has returns: it
    deletes the first entry with that label and no other, so the remaining
    entries keep their order and the pool is one entry shorter; the live
    credential file is not touched. *)
Theorem X8_remove_deletes_first_match (label : string) (w : World)
    (e : AccountEntry.t) :
  label <> "" ->
  e ∈ accounts (persisted w) -> AccountEntry.label e = label ->
  exists w' idx removed,
    cmdRemove label w = Returned tt w'
    /\ accounts (persisted w) !! idx = Some removed
    /\ AccountEntry.label removed = label
    /\ (forall j x, (j < idx)%nat -> accounts (persisted w) !! j = Some x ->
                    AccountEntry.label x <> label)
    /\ accounts (persisted w') = delete idx (accounts (persisted w))
    /\ S (length (accounts (persisted w'))) = length (accounts (persisted w))
    /\ codex_auth w' = codex_auth w.
Proof.
  intros Hlabel He Hel.
  destruct (findIndex (has_label label) (accounts (persisted w))) as [idx|] eqn:Hfind.
  - destruct (cmdRemove_found _ _ _ Hlabel Hfind) as (removed & Hidx & Hrl & Hrun).
    cbv zeta in Hrun. eexists. exists idx, removed.
    split; [exact Hrun|]. split; [exact Hidx|]. split; [exact Hrl|].
    split; [|split; [reflexivity|split; [|reflexivity]]].
    + intros j x Hj Hx. apply findIndex_Some in Hfind as (_ & _ & _ & Hbefore).
      specialize (Hbefore j x Hj Hx). unfold has_label in Hbefore.
      now apply String.eqb_neq.
    + rewrite persisted_logged, persisted_saved. cbn [accounts].
      rewrite length_delete by eauto.
      apply lookup_lt_Some in Hidx. lia.
  - exfalso. apply (findIndex_elem (has_label label) _ e He); [|exact Hfind].
    now apply has_label_true.
Qed.

Lemma X8_witness :
  exists w' idx removed,
    cmdRemove "work" (Sample.world None (Some Sample.three_accounts)) = Returned tt w'
    /\ accounts Sample.three_accounts !! idx = Some removed
    /\ AccountEntry.label removed = "work"
    /\ (forall j x, (j < idx)%nat -> accounts Sample.three_accounts !! j = Some x ->
                    AccountEntry.label x <> "work")
    /\ accounts (persisted w') = delete idx (accounts Sample.three_accounts)
    /\ S (length (accounts (persisted w'))) = 3%nat
    /\ codex_auth w' = None.
Proof.
  apply (X8_remove_deletes_first_match "work"
           (Sample.world None (Some Sample.three_accounts))
           (Sample.entry "work" "acct-2")).
  - discriminate.
  - simpl. right. left.
  - reflexivity.
Defined.

(** X9. In a pool whose labels are all different, after [remove label]
    returned no entry has the label any more, and every entry with another
    label is still in the pool. *)
Theorem X9_remove_with_unique_labels (label : string) (w w' : World) :
  NoDup (AccountEntry.label <$> accounts (persisted w)) ->
  cmdRemove label w = Returned tt w' ->
  (forall x, x ∈ accounts (persisted w') -> AccountEntry.label x <> label)
  /\ (forall x, x ∈ accounts (persisted w) -> AccountEntry.label x <> label ->
                x ∈ accounts (persisted w')).
Proof.
  intros Hnodup Hrun.
  destruct (string_empty_or_not label) as [->|Hlabel];
    [rewrite cmdRemove_empty_label in Hrun; discriminate|].
  destruct (findIndex (has_label label) (accounts (persisted w))) as [idx|] eqn:Hfind.
  - destruct (cmdRemove_found _ _ _ Hlabel Hfind) as (removed & Hidx & Hrl & Hrun').
    rewrite Hrun' in Hrun. cbv zeta in Hrun. injection Hrun as <-.
    rewrite persisted_logged, persisted_saved. cbn [accounts].
    set (accs := accounts (persisted w)) in *.
    assert (Hlab : (AccountEntry.label <$> accs) !! idx = Some label)
      by (rewrite list_lookup_fmap, Hidx; simpl; now rewrite Hrl).
    split.
    + intros x Hx Hxl. apply list_elem_of_lookup in Hx as [k Hk].
      destruct (Nat.lt_ge_cases k idx) as [Hlt|Hge].
      * rewrite list_lookup_delete_lt in Hk by exact Hlt.
        assert (Hk' : (AccountEntry.label <$> accs) !! k = Some label)
          by (rewrite list_lookup_fmap, Hk; simpl; now rewrite Hxl).
        pose proof (NoDup_lookup _ _ _ _ Hnodup Hk' Hlab). lia.
      * rewrite list_lookup_delete_ge in Hk by exact Hge.
        assert (Hk' : (AccountEntry.label <$> accs) !! S k = Some label)
          by (rewrite list_lookup_fmap, Hk; simpl; now rewrite Hxl).
        pose proof (NoDup_lookup _ _ _ _ Hnodup Hk' Hlab). lia.
    + intros x Hx Hxl. apply list_elem_of_lookup in Hx as [k Hk].
      assert (Hne : k <> idx) by (intros ->; rewrite Hidx in Hk; congruence).
      apply list_elem_of_lookup.
      destruct (Nat.lt_ge_cases k idx) as [Hlt|Hge].
      * exists k. now rewrite list_lookup_delete_lt.
      * exists (k - 1)%nat. rewrite list_lookup_delete_ge by lia.
        now replace (S (k - 1)) with k by lia.
  - rewrite (cmdRemove_run _ _ Hlabel) in Hrun. cbv zeta in Hrun.
    rewrite Hfind in Hrun. discriminate.
Qed.

Lemma X9_witness :
  let w' := world_of (cmdRemove "work" (Sample.world None (Some Sample.three_accounts))) in
  (forall x, x ∈ accounts (persisted w') -> AccountEntry.label x <> "work")
  /\ (forall x, x ∈ accounts Sample.three_accounts -> AccountEntry.label x <> "work" ->
                x ∈ accounts (persisted w')).
Proof.
  apply (X9_remove_with_unique_labels "work"
           (Sample.world None (Some Sample.three_accounts))).
  - simpl. repeat constructor; intros H;
      repeat (apply elem_of_cons in H as [H|H]; [discriminate H|]); inversion H.
  - reflexivity.
Defined.

(** X10. Where the active index points after [remove], in a pool with the
    index within it, when the removed entry is at position [idx]: behind
    the active entry, the active entry stays the same; at or before it, with
    the active entry not the last, the index keeps its value and so now
    points at the entry that followed the active one; and when the active
    entry was the last, the index is reset to 0.  The live credential file
    is the same in all three cases. *)
Theorem X10_active_index_after_remove (label : string) (w : World) (idx : nat) :
  let pool := persisted w in
  let i := active_index pool in
  let n := Z.of_nat (length (accounts pool)) in
  label <> "" -> 0 <= i < n ->
  findIndex (has_label label) (accounts pool) = Some idx ->
  exists w',
    cmdRemove label w = Returned tt w'
    /\ codex_auth w' = codex_auth w
    /\ (i < Z.of_nat idx ->
        active_index (persisted w') = i
        /\ at_index (accounts (persisted w')) i = at_index (accounts pool) i)
    /\ (Z.of_nat idx <= i -> i + 1 < n ->
        active_index (persisted w') = i
        /\ at_index (accounts (persisted w')) i = at_index (accounts pool) (i + 1))
    /\ (i + 1 = n -> active_index (persisted w') = 0).
Proof.
  intros pool i n Hlabel Hi Hfind.
  destruct (cmdRemove_found _ _ _ Hlabel Hfind) as (removed & Hidx & _ & Hrun).
  cbv zeta in Hrun. eexists. split; [exact Hrun|]. split; [reflexivity|].
  rewrite persisted_logged, persisted_saved. cbn [active_index accounts].
  fold pool. fold i.
  assert (Hidxn : (idx < length (accounts pool))%nat)
    by (eapply lookup_lt_Some; eauto).
  assert (Hlen : length (delete idx (accounts pool))
                 = (length (accounts pool) - 1)%nat)
    by (apply length_delete; eauto).
  rewrite Hlen.
  assert (Hkeep : i + 1 < n ->
            (if ((length (accounts pool) - 1 =? 0)%nat
                 || (Z.of_nat (length (accounts pool) - 1) <=? i))
             then 0 else i) = i).
  { intros Hlt.
    destruct (length (accounts pool) - 1 =? 0)%nat eqn:E0;
      [apply Nat.eqb_eq in E0; unfold n in *; lia|].
    destruct (Z.of_nat (length (accounts pool) - 1) <=? i) eqn:E;
      [apply Z.leb_le in E; unfold n in *; lia|reflexivity]. }
  split; [|split].
  - intros Hbehind. rewrite Hkeep by (unfold n; lia). split; [reflexivity|].
    rewrite !at_index_lookup by lia. apply list_lookup_delete_lt. lia.
  - intros Hbefore Hnotlast. rewrite Hkeep by exact Hnotlast.
    split; [reflexivity|].
    rewrite !at_index_lookup by lia. rewrite list_lookup_delete_ge by lia.
    f_equal. lia.
  - intros Hlast.
    destruct (length (accounts pool) - 1 =? 0)%nat; [reflexivity|]. cbn [orb].
    destruct (Z.of_nat (length (accounts pool) - 1) <=? i) eqn:E; [reflexivity|].
    apply Z.leb_gt in E. unfold n in *. lia.
Qed.

Lemma X10_witness :
  exists w',
    cmdRemove "personal" (Sample.world None (Some Sample.two_accounts)) = Returned tt w'
    /\ codex_auth w' = None
    /\ (0 < Z.of_nat 0 ->
        active_index (persisted w') = 0
        /\ at_index (accounts (persisted w')) 0
           = at_index (accounts Sample.two_accounts) 0)
    /\ (Z.of_nat 0 <= 0 -> 0 + 1 < 2 ->
        active_index (persisted w') = 0
        /\ at_index (accounts (persisted w')) 0
           = at_index (accounts Sample.two_accounts) (0 + 1))
    /\ (0 + 1 = 2 -> active_index (persisted w') = 0).
Proof.
  apply (X10_active_index_after_remove "personal"
           (Sample.world None (Some Sample.two_accounts)) 0);
    [discriminate | simpl; lia | reflexivity].
Defined.

(** ** Rotation: what is stored, what is mirrored *)

Lemma rotate_returned (advance : Z -> Z -> Z) (w w' : World) :
  rotate advance w = Returned tt w' ->
  let accs := reconciled (codex_auth w) (persisted w) in
  let new := advance (active_index (persisted w)) (Z.of_nat (length accs)) in
  exists nxt,
    at_index accs new = Some nxt
    /\ persisted w' = {| active_index := new; accounts := accs |}
    /\ codex_auth w' = Some (AccountEntry.auth nxt).
Proof.
  intros Hrun accs new. pose proof (rotate_returned_two _ _ _ Hrun) as Htwo.
  rewrite (rotate_run _ _ Htwo) in Hrun. cbv zeta in Hrun. fold accs new in Hrun.
  destruct (at_index accs new) as [nxt|]; [|discriminate].
  destruct (at_index accs _) as [prv|]; [|discriminate].
  injection Hrun as <-. exists nxt. repeat split.
Qed.

Lemma reconciled_up_to_auth (live : option CodexAuth) (pool : Pool) (c : CodexAuth) :
  set_auth c <$> reconciled live pool = set_auth c <$> accounts pool.
Proof.
  unfold reconciled. destruct live as [cur|]; [|reflexivity].
  destruct (at_index _ _) as [act|] eqn:Hact; [|reflexivity].
  destruct (same_account cur act); [|reflexivity].
  unfold at_index in Hact. destruct (_ <? 0); [discriminate|].
  rewrite list_fmap_insert. apply list_insert_id.
  now rewrite list_lookup_fmap, Hact.
Qed.

Lemma reconciled_elsewhere (live : option CodexAuth) (pool : Pool) (j : nat) :
  Z.of_nat j <> active_index pool ->
  reconciled live pool !! j = accounts pool !! j.
Proof.
  intros Hj. unfold reconciled. destruct live as [cur|]; [|reflexivity].
  destruct (at_index _ _) as [act|] eqn:Hact; [|reflexivity].
  destruct (same_account cur act); [|reflexivity].
  unfold at_index in Hact. destruct (_ <? 0) eqn:E; [discriminate|].
  apply Z.ltb_ge in E. apply list_lookup_insert_ne. lia.
Qed.

(** X11. The active slot is mirrored: whenever [next] or [prev] returns,
    from any world, the live credential file holds exactly the stored
    credential of the entry the new [active_index] points at. *)
Theorem X11_rotation_mirrors_active_entry (w w' : World) :
  cmdNext w = Returned tt w' \/ cmdPrev w = Returned tt w' ->
  exists e,
    at_index (accounts (persisted w')) (active_index (persisted w')) = Some e
    /\ codex_auth w' = Some (AccountEntry.auth e).
Proof.
  intros [Hrun|Hrun]; apply rotate_returned in Hrun as (nxt & Hnxt & -> & Hlive);
    exists nxt; split; assumption.
Qed.

Lemma X11_witness :
  let w' := world_of (cmdPrev (Sample.world (Some (Sample.credential "acct-9" "r1"))
                                            (Some Sample.three_accounts))) in
  exists e,
    at_index (accounts (persisted w')) (active_index (persisted w')) = Some e
    /\ codex_auth w' = Some (AccountEntry.auth e).
Proof.
  apply (X11_rotation_mirrors_active_entry
           (Sample.world (Some (Sample.credential "acct-9" "r1"))
                         (Some Sample.three_accounts))).
  right. reflexivity.
Defined.

(** X12. [next] and [prev] change nothing in the pool but the index and
    the stored credential of the entry that was active: the pool has as many
    entries, each equal to the former one up to its stored credential, and
    the entries at the other positions are the former ones. *)
Theorem X12_rotation_keeps_entries (w w' : World) :
  cmdNext w = Returned tt w' \/ cmdPrev w = Returned tt w' ->
  length (accounts (persisted w')) = length (accounts (persisted w))
  /\ (forall c, set_auth c <$> accounts (persisted w')
                = set_auth c <$> accounts (persisted w))
  /\ (forall j, Z.of_nat j <> active_index (persisted w) ->
                accounts (persisted w') !! j = accounts (persisted w) !! j).
Proof.
  intros [Hrun|Hrun]; apply rotate_returned in Hrun as (nxt & _ & -> & _);
    cbn [accounts];
    (split; [apply length_reconciled|]);
    (split; [intros c; apply reconciled_up_to_auth
            |intros j Hj; now apply reconciled_elsewhere]).
Qed.

Lemma X12_witness :
  let w := Sample.world (Some (Sample.credential "acct-3" "r1"))
                        (Some Sample.three_accounts) in
  let w' := world_of (cmdNext w) in
  length (accounts (persisted w')) = length (accounts (persisted w))
  /\ (forall c, set_auth c <$> accounts (persisted w')
                = set_auth c <$> accounts (persisted w))
  /\ (forall j, Z.of_nat j <> active_index (persisted w) ->
                accounts (persisted w') !! j = accounts (persisted w) !! j).
Proof.
  apply (X12_rotation_keeps_entries
           (Sample.world (Some (Sample.credential "acct-3" "r1"))
                         (Some Sample.three_accounts))).
  left. reflexivity.
Defined.

(** X13. The reconciliation step.  In a pool of two or more with the index
    within it and the live credential file present: when the live
    credential has the account identifier of the active entry's stored
    credential, [next] and [prev] store the live credential in that entry
    (a token refreshed by the host application is kept); when it has
    another account identifier, the stored entries are left exactly as they
    were (and the live credential is overwritten without being stored). *)
Theorem X13_reconciliation (w : World) (live : CodexAuth) (act : AccountEntry.t) :
  let pool := persisted w in
  let i := active_index pool in
  2 <= Z.of_nat (length (accounts pool)) ->
  0 <= i < Z.of_nat (length (accounts pool)) ->
  codex_auth w = Some live ->
  accounts pool !! Z.to_nat i = Some act ->
  exists wn wp,
    cmdNext w = Returned tt wn /\ cmdPrev w = Returned tt wp
    /\ (Tokens.account_id (tokens (AccountEntry.auth act))
        = Tokens.account_id (tokens live) ->
        accounts (persisted wn) !! Z.to_nat i = Some (set_auth live act)
        /\ accounts (persisted wp) !! Z.to_nat i = Some (set_auth live act))
    /\ (Tokens.account_id (tokens (AccountEntry.auth act))
        <> Tokens.account_id (tokens live) ->
        accounts (persisted wn) = accounts pool
        /\ accounts (persisted wp) = accounts pool).
Proof.
  intros pool i Hn Hi Hlive Hact.
  destruct (next_index i _ Hi) as [_ Hnb]. destruct (prev_index i _ Hi) as [_ Hpb].
  destruct (rotate_step (fun i n => Z.rem (i + 1) n) w Hn Hi Hnb)
    as (nxt & m & _ & Hnext).
  destruct (rotate_step (fun i n => Z.rem (i - 1 + n) n) w Hn Hi Hpb)
    as (nxt' & m' & _ & Hprev).
  eexists. eexists. split; [exact Hnext|]. split; [exact Hprev|].
  rewrite !persisted_logged, !persisted_saved. cbn [accounts].
  unfold reconciled. rewrite Hlive. fold pool i.
  rewrite at_index_lookup by lia. rewrite Hact. unfold same_account. split.
  - intros Hid. rewrite (proj2 (String.eqb_eq _ _) Hid).
    assert (Hlt : (Z.to_nat i < length (accounts pool))%nat)
      by (eapply lookup_lt_Some; eauto).
    now rewrite list_lookup_insert_eq.
  - intros Hid. rewrite (proj2 (String.eqb_neq _ _) Hid). now split.
Qed.

Lemma X13_witness :
  exists wn wp,
    cmdNext (Sample.world (Some (Sample.credential "acct-1" "refreshed"))
                          (Some Sample.two_accounts)) = Returned tt wn
    /\ cmdPrev (Sample.world (Some (Sample.credential "acct-1" "refreshed"))
                             (Some Sample.two_accounts)) = Returned tt wp
    /\ (Tokens.account_id (tokens (AccountEntry.auth (Sample.entry "personal" "acct-1")))
        = Tokens.account_id (tokens (Sample.credential "acct-1" "refreshed")) ->
        accounts (persisted wn) !! Z.to_nat 0
        = Some (set_auth (Sample.credential "acct-1" "refreshed")
                         (Sample.entry "personal" "acct-1"))
        /\ accounts (persisted wp) !! Z.to_nat 0
           = Some (set_auth (Sample.credential "acct-1" "refreshed")
                            (Sample.entry "personal" "acct-1")))
    /\ (Tokens.account_id (tokens (AccountEntry.auth (Sample.entry "personal" "acct-1")))
        <> Tokens.account_id (tokens (Sample.credential "acct-1" "refreshed")) ->
        accounts (persisted wn) = accounts Sample.two_accounts
        /\ accounts (persisted wp) = accounts Sample.two_accounts).
Proof.
  apply (X13_reconciliation
           (Sample.world (Some (Sample.credential "acct-1" "refreshed"))
                         (Some Sample.two_accounts))
           (Sample.credential "acct-1" "refreshed")
           (Sample.entry "personal" "acct-1"));
    [simpl; lia | simpl; lia | reflexivity | reflexivity].
Defined.

Lemma rotate_index_back (there back : Z -> Z -> Z) (w : World) :
  let pool := persisted w in
  let n := Z.of_nat (length (accounts pool)) in
  let i := active_index pool in
  2 <= n -> 0 <= i < n ->
  0 <= there i n < n -> back (there i n) n = i ->
  exists w',
    (rotate there >> rotate back) w = Returned tt w'
    /\ active_index (persisted w') = i.
Proof.
  intros pool n i Hn Hi Hthere Hback.
  destruct (rotate_step there w Hn Hi Hthere) as (nxt & m & _ & Hrun).
  rewrite bind_run, Hrun. set (w1 := logged _ _).
  assert (Hlen : length (accounts (persisted w1)) = length (accounts pool))
    by apply length_reconciled.
  assert (Hidx : active_index (persisted w1) = there i n) by reflexivity.
  destruct (rotate_step back w1) as (nxt' & m' & _ & Hrun').
  - rewrite Hlen. exact Hn.
  - unfold in_range. rewrite Hlen, Hidx. exact Hthere.
  - rewrite Hlen, Hidx. fold n. rewrite Hback. exact Hi.
  - eexists. split; [exact Hrun'|]. cbn [persisted saved logged pool_file].
    rewrite persisted_logged, persisted_saved. cbn [active_index].
    rewrite Hlen, Hidx. exact Hback.
Qed.

Lemma rotate_in_twice (codex_home : bool) (there back : Z -> Z -> Z) (w : World) :
  codex_home || present (codex_auth w) = true ->
  (rotate_in codex_home there >> rotate_in codex_home back) w
  = (rotate there >> rotate back) w.
Proof.
  intros Hhome. rewrite !bind_run, (rotate_in_home _ _ _ Hhome).
  destruct (rotate there w) as [[] w1|r w1|w1] eqn:Hrun; try reflexivity.
  apply rotate_writes in Hrun as [_ Hlive].
  apply rotate_in_home. destruct (codex_auth w1); [|contradiction].
  apply orb_true_r.
Qed.

(** X14. The index half of the round trip needs nothing of the content of
    the live credential file.  In a pool of two or more with the index
    within it, wherever the first write can succeed (the directory
    [CODEX_HOME] is there, as it is in particular when the live file is),
    [next] then [prev], and [prev] then [next], return and leave
    [active_index] where it was, whether the live file is absent, holds the
    active account's credential or another account's. *)
Theorem X14_index_round_trip (codex_home : bool) (w : World) :
  let pool := persisted w in
  let n := Z.of_nat (length (accounts pool)) in
  let i := active_index pool in
  2 <= n -> 0 <= i < n ->
  codex_home = true \/ codex_auth w <> None ->
  (exists w', (cmdNext_in codex_home >> cmdPrev_in codex_home) w = Returned tt w'
              /\ active_index (persisted w') = i)
  /\ (exists w', (cmdPrev_in codex_home >> cmdNext_in codex_home) w = Returned tt w'
                 /\ active_index (persisted w') = i).
Proof.
  intros pool n i Hn Hi Hdir.
  assert (Hhome : codex_home || present (codex_auth w) = true).
  { destruct Hdir as [->|Hlive]; [reflexivity|].
    destruct (codex_auth w); [apply orb_true_r|contradiction]. }
  unfold cmdNext_in, cmdPrev_in. rewrite !(rotate_in_twice _ _ _ _ Hhome). split.
  - destruct (prev_after_next_index i n Hn Hi) as [_ Hback].
    apply (rotate_index_back _ _ w Hn Hi); [now apply next_index|exact Hback].
  - destruct (next_after_prev_index i n Hn Hi) as [_ Hback].
    apply (rotate_index_back _ _ w Hn Hi); [now apply prev_index|exact Hback].
Qed.

Lemma X14_witness :
  let w := Sample.world (Some (Sample.credential "acct-9" "r1"))
                        (Some Sample.three_accounts) in
  (exists w', (cmdNext_in false >> cmdPrev_in false) w = Returned tt w'
              /\ active_index (persisted w') = 2)
  /\ (exists w', (cmdPrev_in false >> cmdNext_in false) w = Returned tt w'
                 /\ active_index (persisted w') = 2).
Proof.
  apply (X14_index_round_trip false
           (Sample.world (Some (Sample.credential "acct-9" "r1"))
                         (Some Sample.three_accounts)));
    [simpl; lia | simpl; lia | right; discriminate].
Defined.

(** X27. Where the directory [CODEX_HOME] is missing (and so the live
    credential file absent), in a pool of two or more [next] and [prev]
    stop on the uncaught [ENOENT] of the write: they do not return, the
    live file is not created, and since the write comes before [savePool]
    the pool file and the index are what they were. *)
Theorem X27_rotation_without_codex_home (w : World) :
  (2 <= length (accounts (persisted w)))%nat ->
  codex_auth w = None ->
  cmdNext_in false w = Threw w /\ cmdPrev_in false w = Threw w.
Proof.
  intros Hge Hlive. unfold cmdNext_in, cmdPrev_in.
  now rewrite !(rotate_in_no_home _ _ Hge Hlive).
Qed.

Lemma X27_witness :
  cmdNext_in false (Sample.world None (Some Sample.three_accounts))
  = Threw (Sample.world None (Some Sample.three_accounts))
  /\ cmdPrev_in false (Sample.world None (Some Sample.three_accounts))
     = Threw (Sample.world None (Some Sample.three_accounts)).
Proof.
  apply (X27_rotation_without_codex_home
           (Sample.world None (Some Sample.three_accounts)));
    [simpl; lia | reflexivity].
Defined.

(** ** add: what it keeps and what it stores *)

Lemma findIndex_first {A} (p : A -> bool) (xs : list A) (i : nat) (x : A) :
  xs !! i = Some x -> p x = true ->
  (forall j y, (j < i)%nat -> xs !! j = Some y -> p y = false) ->
  findIndex p xs = Some i.
Proof.
  revert i. induction xs as [|a xs IH]; intros i; [discriminate|].
  destruct i as [|i]; simpl.
  - intros [= ->] -> _. reflexivity.
  - intros Hx Hp Hbefore.
    rewrite (Hbefore 0%nat a) by (simpl; auto; lia).
    rewrite (IH i Hx Hp); [reflexivity|].
    intros j y Hj Hy. apply (Hbefore (S j) y); [lia|exact Hy].
Qed.

Lemma findIndex_app_None {A} (p : A -> bool) (xs ys : list A) :
  findIndex p xs = None ->
  findIndex p (xs ++ ys) = (fun k => (length xs + k)%nat) <$> findIndex p ys.
Proof.
  induction xs as [|x xs IH]; simpl.
  - intros _. now destruct (findIndex p ys).
  - destruct (p x); [discriminate|].
    destruct (findIndex p xs) eqn:E; [discriminate|]. intros _.
    rewrite IH by reflexivity. now destruct (findIndex p ys).
Qed.

Lemma delete_last_appended {A} (xs : list A) (x : A) :
  delete (length xs) (xs ++ [x]) = xs.
Proof. induction xs as [|a xs IH]; simpl; [reflexivity|now rewrite IH]. Qed.

Section AddMore.

Variable base64_utf8 : string -> string.
Variable JSON_parse : string -> option JsValue.

Lemma add_result_ids_in_place (label : string) (auth : CodexAuth)
    (added : string) (p p' : Pool) :
  add_result base64_utf8 JSON_parse label auth added p p' ->
  findIndex (has_label label) (accounts p) = None ->
  stored_account_ids p' = stored_account_ids p
  \/ ((Tokens.account_id (tokens auth) ∉ stored_account_ids p)
      /\ stored_account_ids p'
         = stored_account_ids p ++ [Tokens.account_id (tokens auth)]).
Proof.
  intros Hadd Hnolabel. unfold stored_account_ids.
  inversion Hadd as [existing entry Hfind Hentry | j dup Hnone Hfind Hentry
                     | Hnone Hnone']; subst; cbn [accounts].
  - congruence.
  - left. rewrite list_fmap_insert. apply list_insert_id.
    rewrite list_lookup_fmap, Hentry. simpl. f_equal.
    apply findIndex_Some in Hfind as (x & Hx & Hpx & _).
    rewrite Hx in Hentry. injection Hentry as <-.
    now apply String.eqb_eq.
  - right. split; [|now rewrite fmap_app].
    intros Hin. apply list_elem_of_fmap in Hin as (x & Hid & Hx).
    rewrite findIndex_None in Hnone'. specialize (Hnone' x Hx).
    unfold same_account in Hnone'. apply String.eqb_neq in Hnone'. congruence.
Qed.

(** X15. [add] keeps the labels of a pool different from one another:
    whenever it returns from a pool with no label twice, the pool it leaves
    has no label twice. *)
Theorem X15_add_keeps_labels_unique (label : string) (w w' : World) :
  NoDup (AccountEntry.label <$> accounts (persisted w)) ->
  cmdAdd base64_utf8 JSON_parse label w = Returned tt w' ->
  NoDup (AccountEntry.label <$> accounts (persisted w')).
Proof.
  intros Hnodup Hrun.
  apply cmdAdd_returned in Hrun as (_ & auth & _ & Hadd).
  destruct (findIndex (has_label label) (accounts (persisted w))) as [k|] eqn:Hl.
  - destruct (add_result_in_place _ _ _ _ _ _ _ Hadd) as [_ ->];
      [left; congruence | exact Hnodup].
  - destruct (findIndex (same_account auth) (accounts (persisted w))) as [j|] eqn:Ha.
    + destruct (add_result_in_place _ _ _ _ _ _ _ Hadd) as [_ ->];
        [right; congruence | exact Hnodup].
    + remember (persisted w') as p' eqn:Hp'.
      inversion Hadd as [existing entry Hfind Hentry | j dup Hnone Hfind Hentry
                         | Hnone Hnone']; subst p'; try congruence.
      cbn [accounts]. rewrite fmap_app. apply NoDup_app.
      split; [exact Hnodup|]. split; [|apply NoDup_singleton].
      intros x Hx Hin. apply list_elem_of_singleton in Hin. simpl in Hin. subst x.
      apply list_elem_of_fmap in Hx as (e & Hel & He).
      rewrite findIndex_None in Hl. specialize (Hl e He).
      unfold has_label in Hl. apply String.eqb_neq in Hl. congruence.
Qed.

(** X16. When no entry has the label, [add] keeps the account identifiers
    of the stored credentials different from one another: it either updates
    the entry of that account or appends an entry of an account not yet in
    the pool. *)
Theorem X16_add_keeps_accounts_unique (label : string) (w w' : World) :
  (forall e, e ∈ accounts (persisted w) -> AccountEntry.label e <> label) ->
  NoDup (stored_account_ids (persisted w)) ->
  cmdAdd base64_utf8 JSON_parse label w = Returned tt w' ->
  NoDup (stored_account_ids (persisted w')).
Proof.
  intros Hnolabel Hnodup Hrun.
  apply cmdAdd_returned in Hrun as (_ & auth & _ & Hadd).
  assert (Hnone : findIndex (has_label label) (accounts (persisted w)) = None).
  { apply findIndex_None. intros x Hx. unfold has_label.
    apply String.eqb_neq. now apply Hnolabel. }
  destruct (add_result_ids_in_place _ _ _ _ _ Hadd Hnone) as [->|[Hfresh ->]];
    [exact Hnodup|].
  apply NoDup_app. split; [exact Hnodup|]. split; [|apply NoDup_singleton].
  intros x Hx Hin. apply list_elem_of_singleton in Hin. now subst x.
Qed.

(** [add] in its third way. *)
Lemma cmdAdd_run_new (label : string) (w : World) (live : CodexAuth) :
  label <> "" ->
  codex_auth w = Some live ->
  findIndex (has_label label) (accounts (persisted w)) = None ->
  findIndex (same_account live) (accounts (persisted w)) = None ->
  exists m,
    cmdAdd base64_utf8 JSON_parse label w =
      Returned tt
        (logged (Stdout m)
           (saved {| active_index := Z.of_nat (length (accounts (persisted w)));
                     accounts := accounts (persisted w)
                                 ++ [new_entry base64_utf8 JSON_parse label live (now w)] |}
                  w)).
Proof.
  intros Hlabel Hlive Hl Ha.
  rewrite (cmdAdd_run _ _ _ _ Hlabel), Hlive. cbv zeta. rewrite Hl, Ha.
  eexists. rewrite length_app. simpl.
  replace (Z.of_nat (length (accounts (persisted w)) + 1) - 1)
    with (Z.of_nat (length (accounts (persisted w)))) by lia.
  reflexivity.
Qed.

(** X17. [add] of a non-empty label that no entry has, with a live
    credential of an account no stored credential has and a token whose
    email and plan read as strings (as the entries declare them), returns
    and appends one entry, leaving the others as they were: the new entry
    has the label, the live credential, its account identifier, that email
    and plan and the time of the call, and is the active one. *)
Theorem X17_add_appends_new_entry (label : string) (w : World) (live : CodexAuth)
    (email plan : string) :
  label <> "" ->
  codex_auth w = Some live ->
  extractEmailFromAuth base64_utf8 JSON_parse live = JStr email ->
  extractPlanFromAuth base64_utf8 JSON_parse live = JStr plan ->
  (forall e, e ∈ accounts (persisted w) -> AccountEntry.label e <> label) ->
  (forall e, e ∈ accounts (persisted w) ->
             Tokens.account_id (tokens (AccountEntry.auth e))
             <> Tokens.account_id (tokens live)) ->
  exists w',
    cmdAdd base64_utf8 JSON_parse label w = Returned tt w'
    /\ accounts (persisted w')
       = accounts (persisted w)
         ++ [ {| AccountEntry.label := label;
                 AccountEntry.email := JStr email;
                 AccountEntry.account_id := Tokens.account_id (tokens live);
                 AccountEntry.plan_type := JStr plan;
                 AccountEntry.auth := live;
                 AccountEntry.added_at := now w |} ]
    /\ active_index (persisted w') = Z.of_nat (length (accounts (persisted w)))
    /\ codex_auth w' = Some live.
Proof.
  intros Hlabel Hlive Hemail Hplan Hnolabel Hnoacct.
  assert (Hl : findIndex (has_label label) (accounts (persisted w)) = None).
  { apply findIndex_None. intros x Hx. unfold has_label.
    apply String.eqb_neq. now apply Hnolabel. }
  assert (Ha : findIndex (same_account live) (accounts (persisted w)) = None).
  { apply findIndex_None. intros x Hx. unfold same_account.
    apply String.eqb_neq. now apply Hnoacct. }
  destruct (cmdAdd_run_new label w live Hlabel Hlive Hl Ha) as (m & Hrun).
  eexists. split; [exact Hrun|].
  rewrite persisted_logged, persisted_saved. cbn [accounts active_index].
  split; [|split; [reflexivity|exact Hlive]].
  unfold new_entry. now rewrite Hemail, Hplan.
Qed.

(** X18. [add] of a non-empty label that an entry has, with a token whose
    email and plan read as strings, returns and updates the first such
    entry in place, even when another entry stores the live credential's
    account: that entry keeps its label and time of addition and takes the
    live credential, its account identifier, that email and plan; it
    becomes the active one, and the entries at the other positions are left
    as they were. *)
Theorem X18_add_updates_in_place (label : string) (w : World) (live : CodexAuth)
    (k : nat) (old : AccountEntry.t) (email plan : string) :
  label <> "" ->
  codex_auth w = Some live ->
  extractEmailFromAuth base64_utf8 JSON_parse live = JStr email ->
  extractPlanFromAuth base64_utf8 JSON_parse live = JStr plan ->
  accounts (persisted w) !! k = Some old ->
  AccountEntry.label old = label ->
  (forall j x, (j < k)%nat -> accounts (persisted w) !! j = Some x ->
               AccountEntry.label x <> label) ->
  exists w',
    cmdAdd base64_utf8 JSON_parse label w = Returned tt w'
    /\ accounts (persisted w') !! k
       = Some {| AccountEntry.label := label;
                 AccountEntry.email := JStr email;
                 AccountEntry.account_id := Tokens.account_id (tokens live);
                 AccountEntry.plan_type := JStr plan;
                 AccountEntry.auth := live;
                 AccountEntry.added_at := AccountEntry.added_at old |}
    /\ (forall j, j <> k -> accounts (persisted w') !! j = accounts (persisted w) !! j)
    /\ length (accounts (persisted w')) = length (accounts (persisted w))
    /\ active_index (persisted w') = Z.of_nat k.
Proof.
  intros Hlabel Hlive Hemail Hplan Hold Holdl Hbefore.
  rewrite (cmdAdd_run _ _ _ _ Hlabel), Hlive. cbv zeta.
  assert (Hl : findIndex (has_label label) (accounts (persisted w)) = Some k).
  { apply (findIndex_first _ _ _ old Hold); [now apply has_label_true|].
    intros j x Hj Hx. unfold has_label. apply String.eqb_neq. eauto. }
  rewrite Hl, Hold. eexists. split; [reflexivity|].
  rewrite persisted_logged, persisted_saved. cbn [accounts active_index].
  split; [|split; [|split; [apply length_insert|reflexivity]]].
  - rewrite list_lookup_insert_eq by (eapply lookup_lt_Some; eauto).
    unfold updated_entry. now rewrite Holdl, Hemail, Hplan.
  - intros j Hj. now apply list_lookup_insert_ne.
Qed.

(** X19. [add] of a new label for a new account, then [remove] of that
    label, gives back the stored entries as they were before the two, with
    the active index reset to 0; the live credential file is not touched. *)
Theorem X19_add_then_remove (label : string) (w : World) (live : CodexAuth) :
  label <> "" ->
  codex_auth w = Some live ->
  (forall e, e ∈ accounts (persisted w) -> AccountEntry.label e <> label) ->
  (forall e, e ∈ accounts (persisted w) ->
             Tokens.account_id (tokens (AccountEntry.auth e))
             <> Tokens.account_id (tokens live)) ->
  exists w',
    (cmdAdd base64_utf8 JSON_parse label >> cmdRemove label) w = Returned tt w'
    /\ accounts (persisted w') = accounts (persisted w)
    /\ active_index (persisted w') = 0
    /\ codex_auth w' = Some live.
Proof.
  intros Hlabel Hlive Hnolabel Hnoacct.
  assert (Hl : findIndex (has_label label) (accounts (persisted w)) = None).
  { apply findIndex_None. intros x Hx. unfold has_label.
    apply String.eqb_neq. now apply Hnolabel. }
  assert (Ha : findIndex (same_account live) (accounts (persisted w)) = None).
  { apply findIndex_None. intros x Hx. unfold same_account.
    apply String.eqb_neq. now apply Hnoacct. }
  destruct (cmdAdd_run_new label w live Hlabel Hlive Hl Ha) as (m & Hadd).
  rewrite bind_run, Hadd. set (w1 := logged _ _).
  assert (Haccs : accounts (persisted w1)
                  = accounts (persisted w)
                    ++ [new_entry base64_utf8 JSON_parse label live (now w)])
    by reflexivity.
  assert (Hidx : active_index (persisted w1)
                 = Z.of_nat (length (accounts (persisted w)))) by reflexivity.
  assert (Hfind : findIndex (has_label label) (accounts (persisted w1))
                  = Some (length (accounts (persisted w)))).
  { rewrite Haccs, (findIndex_app_None _ _ _ Hl). simpl.
    unfold has_label at 1. simpl. rewrite String.eqb_refl. simpl.
    f_equal. lia. }
  destruct (cmdRemove_found _ _ _ Hlabel Hfind) as (removed & _ & _ & Hrun).
  cbv zeta in Hrun. eexists. split; [exact Hrun|].
  rewrite persisted_logged, persisted_saved. cbn [accounts active_index].
  rewrite Haccs, delete_last_appended, Hidx.
  split; [reflexivity|]. split; [|exact Hlive].
  destruct (length (accounts (persisted w)) =? 0)%nat; [reflexivity|].
  cbn [orb]. now rewrite Z.leb_refl.
Qed.

End AddMore.

Ltac each_entry :=
  let e := fresh "e" in
  let He := fresh "He" in
  intros e He; simpl in He;
  repeat (apply elem_of_cons in He as [->|He]; [discriminate|]);
  inversion He.

Ltac all_different :=
  simpl; repeat constructor;
  let H := fresh "H" in
  intros H; repeat (apply elem_of_cons in H as [H|H]; [discriminate H|]);
  inversion H.

Lemma X15_witness :
  NoDup (AccountEntry.label
           <$> accounts (persisted (world_of
                 (cmdAdd Sample.base64_utf8 Sample.JSON_parse "lab"
                    (Sample.world (Some (Sample.credential "acct-9" "r1"))
                                  (Some Sample.two_accounts)))))).
Proof.
  apply (X15_add_keeps_labels_unique Sample.base64_utf8 Sample.JSON_parse "lab"
           (Sample.world (Some (Sample.credential "acct-9" "r1"))
                         (Some Sample.two_accounts)));
    [all_different | reflexivity].
Defined.

Lemma X16_witness :
  NoDup (stored_account_ids
           (persisted (world_of
              (cmdAdd Sample.base64_utf8 Sample.JSON_parse "lab"
                 (Sample.world (Some (Sample.credential "acct-2" "r1"))
                               (Some Sample.two_accounts)))))).
Proof.
  apply (X16_add_keeps_accounts_unique Sample.base64_utf8 Sample.JSON_parse "lab"
           (Sample.world (Some (Sample.credential "acct-2" "r1"))
                         (Some Sample.two_accounts)));
    [each_entry | all_different | reflexivity].
Defined.

Lemma X17_witness :
  exists w',
    cmdAdd Sample.base64_utf8 Sample.JSON_parse "lab"
      (Sample.world (Some (Sample.credential "acct-9" "r1"))
                    (Some Sample.two_accounts)) = Returned tt w'
    /\ accounts (persisted w')
       = accounts Sample.two_accounts
         ++ [ {| AccountEntry.label := "lab";
                 AccountEntry.email := JStr "a@x.com";
                 AccountEntry.account_id := "acct-9";
                 AccountEntry.plan_type := unknown;
                 AccountEntry.auth := Sample.credential "acct-9" "r1";
                 AccountEntry.added_at := "2025-06-01T00:00:00.000Z" |} ]
    /\ active_index (persisted w') = 2
    /\ codex_auth w' = Some (Sample.credential "acct-9" "r1").
Proof.
  apply (X17_add_appends_new_entry Sample.base64_utf8 Sample.JSON_parse "lab"
           (Sample.world (Some (Sample.credential "acct-9" "r1"))
                         (Some Sample.two_accounts))
           (Sample.credential "acct-9" "r1") "a@x.com" "unknown");
    [discriminate | reflexivity | reflexivity | reflexivity
     | each_entry | each_entry].
Defined.

Lemma X18_witness :
  exists w',
    cmdAdd Sample.base64_utf8 Sample.JSON_parse "personal"
      (Sample.world (Some (Sample.credential "acct-2" "r1"))
                    (Some Sample.two_accounts)) = Returned tt w'
    /\ accounts (persisted w') !! 0%nat
       = Some {| AccountEntry.label := "personal";
                 AccountEntry.email := JStr "a@x.com";
                 AccountEntry.account_id := "acct-2";
                 AccountEntry.plan_type := unknown;
                 AccountEntry.auth := Sample.credential "acct-2" "r1";
                 AccountEntry.added_at := "2025-01-01T00:00:00.000Z" |}
    /\ (forall j, j <> 0%nat ->
                  accounts (persisted w') !! j = accounts Sample.two_accounts !! j)
    /\ length (accounts (persisted w')) = 2%nat
    /\ active_index (persisted w') = 0.
Proof.
  apply (X18_add_updates_in_place Sample.base64_utf8 Sample.JSON_parse "personal"
           (Sample.world (Some (Sample.credential "acct-2" "r1"))
                         (Some Sample.two_accounts))
           (Sample.credential "acct-2" "r1") 0 (Sample.entry "personal" "acct-1")
           "a@x.com" "unknown");
    [discriminate | reflexivity | reflexivity | reflexivity
     | reflexivity | reflexivity | intros j x Hj; lia].
Defined.

Lemma X19_witness :
  exists w',
    (cmdAdd Sample.base64_utf8 Sample.JSON_parse "lab" >> cmdRemove "lab")
      (Sample.world (Some (Sample.credential "acct-9" "r1"))
                    (Some Sample.two_accounts)) = Returned tt w'
    /\ accounts (persisted w') = accounts Sample.two_accounts
    /\ active_index (persisted w') = 0
    /\ codex_auth w' = Some (Sample.credential "acct-9" "r1").
Proof.
  apply (X19_add_then_remove Sample.base64_utf8 Sample.JSON_parse "lab"
           (Sample.world (Some (Sample.credential "acct-9" "r1"))
                         (Some Sample.two_accounts))
           (Sample.credential "acct-9" "r1"));
    [discriminate | reflexivity | each_entry | each_entry].
Defined.

(** ** list and status *)

Lemma rows_printed_rows (active : Z) (rows : list AccountEntry.t) :
  forall i, length (List.filter is_row (rows_printed active i rows)) = length rows.
Proof.
  induction rows as [|a rest IH]; intros i; simpl; [reflexivity|].
  rewrite List.filter_app, length_app, IH. simpl. lia.
Qed.

Lemma rows_printed_active (active : Z) (rows : list AccountEntry.t) :
  forall i,
    (Z.of_nat i <= active < Z.of_nat (i + length rows) ->
     length (List.filter is_active_row (rows_printed active i rows)) = 1%nat)
    /\ (~ Z.of_nat i <= active < Z.of_nat (i + length rows) ->
        length (List.filter is_active_row (rows_printed active i rows)) = 0%nat).
Proof.
  induction rows as [|a rest IH]; intros i; simpl.
  - split; [lia|reflexivity].
  - rewrite List.filter_app, length_app. simpl.
    destruct (IH (S i)) as [Hin Hout].
    destruct (Z.eqb_spec (Z.of_nat i) active) as [E|E]; simpl; split; intros H.
    + rewrite Hout by lia. reflexivity.
    + lia.
    + rewrite Hin by lia. reflexivity.
    + rewrite Hout by lia. reflexivity.
Qed.

Lemma at_index_None {A} (xs : list A) (i : Z) :
  ~ 0 <= i < Z.of_nat (length xs) -> at_index xs i = None.
Proof.
  intros H. unfold at_index. destruct (i <? 0) eqn:E; [reflexivity|].
  apply Z.ltb_ge in E. apply lookup_ge_None. lia.
Qed.

(** X20. [list] returns from every world and only prints: both files and
    the directory are as they were.  It prints one row per entry, and marks
    exactly one row as active when the index is within the pool, none when
    it is not (nor when the pool is empty). *)
Theorem X20_list_marks_one_row (w : World) :
  exists es,
    cmdList w = Returned tt (logged_all es w)
    /\ printed_only es
    /\ length (List.filter is_row es) = length (accounts (persisted w))
    /\ (in_range (persisted w) ->
        length (List.filter is_active_row es) = 1%nat)
    /\ (~ in_range (persisted w) ->
        length (List.filter is_active_row es) = 0%nat).
Proof.
  rewrite cmdList_run. cbv zeta. unfold in_range.
  destruct (length (accounts (persisted w)) =? 0)%nat eqn:E0.
  - apply Nat.eqb_eq in E0. exists [Stdout NoAccountsInPool].
    split; [reflexivity|]. split; [repeat constructor; eauto|].
    rewrite E0. simpl. split; [reflexivity|]. split; [lia|reflexivity].
  - set (rows := rows_printed _ _ _).
    exists (Stdout BlankLine :: rows
            ++ [Stdout (ListHeader (length (accounts (persisted w))))]).
    split; [unfold logged_all, logged; simpl; now rewrite <- app_assoc|].
    split.
    { apply Forall_cons. split; [eauto|]. apply Forall_app.
      split; [apply rows_printed_only|]. repeat constructor. eauto. }
    simpl. rewrite !List.filter_app, !length_app. simpl. rewrite !Nat.add_0_r.
    destruct (rows_printed_active (active_index (persisted w))
                (accounts (persisted w)) 0) as [Hin Hout].
    split; [apply rows_printed_rows|]. split; intros H.
    + apply Hin. simpl. lia.
    + apply Hout. simpl. lia.
Qed.

Lemma X20_witness :
  exists es,
    cmdList (Sample.world None (Some Sample.three_accounts))
    = Returned tt (logged_all es (Sample.world None (Some Sample.three_accounts)))
    /\ printed_only es
    /\ length (List.filter is_row es) = 3%nat
    /\ length (List.filter is_active_row es) = 1%nat.
Proof.
  destruct (X20_list_marks_one_row (Sample.world None (Some Sample.three_accounts)))
    as (es & Hrun & Hes & Hrows & Hin & _).
  exists es. repeat split; auto. apply Hin. unfold in_range. simpl. lia.
Defined.

Section Status.

Variable base64_utf8 : string -> string.
Variable JSON_parse : string -> option JsValue.

(** X21. [status] returns and only prints whenever the pool is empty or
    its index is within it, with or without a live credential file: it
    reports the missing file exactly when there is none, and always the
    pool size.  With a pool that has accounts and an index outside it,
    [status] stops on an exception instead, still without writing a file. *)
Theorem X21_status_reports (w : World) :
  (accounts (persisted w) = [] \/ in_range (persisted w) ->
   exists es,
     cmdStatus base64_utf8 JSON_parse w = Returned tt (logged_all es w)
     /\ printed_only es
     /\ (Stdout NoAuthFileFound ∈ es <-> codex_auth w = None)
     /\ Stdout (StatusPoolSize (length (accounts (persisted w)))) ∈ es)
  /\ (accounts (persisted w) <> [] -> ~ in_range (persisted w) ->
      exists w',
        cmdStatus base64_utf8 JSON_parse w = Threw w'
        /\ pool_file w' = pool_file w
        /\ codex_auth w' = codex_auth w).
Proof.
  rewrite cmdStatus_run. cbv zeta. split.
  - intros Hok.
    assert (Hsize : forall slot,
      Stdout (StatusPoolSize (length (accounts (persisted w))))
      ∈ status_printed base64_utf8 JSON_parse (codex_auth w) (persisted w) slot).
    { intros slot. unfold status_printed. right. apply elem_of_app. right. left. }
    assert (Hmissing : forall slot,
      printed_only slot -> Stdout NoAuthFileFound ∉ slot ->
      Stdout NoAuthFileFound
      ∈ status_printed base64_utf8 JSON_parse (codex_auth w) (persisted w) slot
      <-> codex_auth w = None).
    { intros slot Hslot Hnot. unfold status_printed.
      rewrite elem_of_cons, !elem_of_app.
      destruct (codex_auth w) as [auth|]; split; intros H; try discriminate.
      - exfalso. destruct H as [H|[H|[H|[H|H]]]]; try discriminate; auto.
        + repeat (apply elem_of_cons in H as [H|H]; [discriminate H|]). inversion H.
        + repeat (apply elem_of_cons in H as [H|H]; [discriminate H|]). inversion H.
        + repeat (apply elem_of_cons in H as [H|H]; [discriminate H|]). inversion H.
      - reflexivity.
      - right. right. right. left. left. }
    destruct (0 <? length (accounts (persisted w)))%nat eqn:Epos.
    + destruct Hok as [Hempty|Hin];
        [rewrite Hempty in Epos; discriminate|].
      destruct (at_index_is_Some _ _ Hin) as [active ->].
      eexists. split; [reflexivity|].
      split; [apply status_printed_only; repeat constructor; eauto|].
      split; [|apply Hsize].
      apply Hmissing; [repeat constructor; eauto|].
      intros H. apply elem_of_cons in H as [H|H]; [discriminate H|inversion H].
    + eexists. split; [reflexivity|].
      split; [apply status_printed_only; constructor|].
      split; [|apply Hsize].
      apply Hmissing; [constructor|]. intros H. inversion H.
  - intros Hne Hout. apply nonempty_length in Hne.
    replace (0 <? length (accounts (persisted w)))%nat with true
      by (symmetry; apply Nat.ltb_lt; exact Hne).
    rewrite at_index_None by exact Hout. eexists. repeat split.
Qed.

End Status.

Lemma X21_witness :
  exists es,
    cmdStatus Sample.base64_utf8 Sample.JSON_parse
      (Sample.world None (Some Sample.two_accounts))
    = Returned tt (logged_all es (Sample.world None (Some Sample.two_accounts)))
    /\ printed_only es
    /\ (Stdout NoAuthFileFound ∈ es <-> @None CodexAuth = None)
    /\ Stdout (StatusPoolSize 2) ∈ es.
Proof.
  apply (proj1 (X21_status_reports Sample.base64_utf8 Sample.JSON_parse
                  (Sample.world None (Some Sample.two_accounts)))).
  right. unfold in_range. simpl. lia.
Defined.

(** ** Token inspector: segments and fields *)

Lemma split_dot_nonempty (s : string) : split_dot s <> [].
Proof.
  induction s as [|c s IH]; simpl; [discriminate|].
  destruct (Ascii.eqb c "."); [discriminate|].
  destruct (split_dot s); [contradiction|discriminate].
Qed.

Lemma split_dot_length (s : string) : length (split_dot s) = S (count_dots s).
Proof.
  induction s as [|c s IH]; simpl; [reflexivity|].
  destruct (Ascii.eqb c "."); simpl; [now rewrite IH|].
  destruct (split_dot s) eqn:E; [now apply split_dot_nonempty in E|].
  simpl in *. exact IH.
Qed.

(** X22. The segments [split] gives, joined by dots again, are the token,
    and no segment has a dot in it: a token with [k] dots has [k + 1]
    segments, the empty ones included. *)
Theorem X22_split_dot_round_trip (s : string) :
  String.concat "." (split_dot s) = s
  /\ length (split_dot s) = S (count_dots s)
  /\ Forall (fun segment => count_dots segment = 0%nat) (split_dot s).
Proof.
  split; [|split; [apply split_dot_length|]].
  - induction s as [|c s IH]; simpl; [reflexivity|].
    destruct (Ascii.eqb_spec c ".") as [->|Hc].
    + destruct (split_dot s) eqn:E; [now apply split_dot_nonempty in E|].
      simpl in *. now rewrite IH.
    + destruct (split_dot s) as [|seg segs] eqn:E;
        [now apply split_dot_nonempty in E|].
      simpl in *. destruct segs; simpl in *; now rewrite <- IH.
  - induction s as [|c s IH]; simpl; [repeat constructor|].
    destruct (Ascii.eqb c ".") eqn:Hc; [constructor; [reflexivity|exact IH]|].
    destruct (split_dot s) as [|seg segs]; [repeat constructor; simpl; now rewrite Hc|].
    inversion IH as [|? ? Hseg Hsegs]; subst.
    constructor; [simpl; now rewrite Hc|exact Hsegs].
Qed.

Section TokenFields.

Variable base64_utf8 : string -> string.
Variable JSON_parse : string -> option JsValue.

(** X23. A token decodes only if it has exactly two dots: with any other
    number [decodeJwtPayload] raises, and the email and the plan are both
    reported as "unknown", whatever the segments hold.  With two dots the
    outcome is that of parsing the decoded middle segment. *)
Theorem X23_token_needs_two_dots (auth : CodexAuth) :
  let jwt := Tokens.id_token (tokens auth) in
  (count_dots jwt <> 2%nat ->
   decodeJwtPayload base64_utf8 JSON_parse jwt = Raise
   /\ extractEmailFromAuth base64_utf8 JSON_parse auth = JStr "unknown"
   /\ extractPlanFromAuth base64_utf8 JSON_parse auth = JStr "unknown")
  /\ (count_dots jwt = 2%nat ->
      exists header part signature,
        split_dot jwt = [header; part; signature]
        /\ decodeJwtPayload base64_utf8 JSON_parse jwt
           = match JSON_parse (payload_text base64_utf8 part) with
             | Some v => Value v
             | None => Raise
             end).
Proof.
  intros jwt. split.
  - intros Hdots.
    assert (Hraise : decodeJwtPayload base64_utf8 JSON_parse jwt = Raise).
    { apply decodeJwtPayload_segments. rewrite split_dot_length. lia. }
    split; [exact Hraise|].
    unfold extractEmailFromAuth, extractPlanFromAuth. fold jwt.
    now rewrite Hraise.
  - intros Hdots. pose proof (split_dot_length jwt) as Hlen. rewrite Hdots in Hlen.
    destruct (split_dot jwt) as [|h [|p [|s [|x rest]]]] eqn:E; try discriminate.
    exists h, p, s. split; [reflexivity|].
    now apply (decodeJwtPayload_three _ _ _ h p s).
Qed.

(** X24. A field that is there is returned as it is, whatever its JSON
    type: with a three-segment token whose payload parses to a document,
    the email is the document's [email] unless that is [null], and the plan
    is the [chatgpt_plan_type] of the nested document unless that is
    [null]; a [null] field, or a nested value that is not a document, gives
    "unknown". *)
Theorem X24_fields_returned_unchecked (auth : CodexAuth)
    (header part signature : string) (fields : list (string * JsValue)) :
  split_dot (Tokens.id_token (tokens auth)) = [header; part; signature] ->
  JSON_parse (payload_text base64_utf8 part) = Some (JObj fields) ->
  (forall v, own_property "email" fields = Some v -> v <> JNull ->
             extractEmailFromAuth base64_utf8 JSON_parse auth = v)
  /\ (own_property "email" fields = Some JNull ->
      extractEmailFromAuth base64_utf8 JSON_parse auth = JStr "unknown")
  /\ (forall info v,
        own_property auth_key fields = Some (JObj info) ->
        own_property "chatgpt_plan_type" info = Some v -> v <> JNull ->
        extractPlanFromAuth base64_utf8 JSON_parse auth = v)
  /\ (forall x, own_property auth_key fields = Some x -> is_document x = false ->
                extractPlanFromAuth base64_utf8 JSON_parse auth = JStr "unknown").
Proof.
  intros Hsplit Hparse.
  unfold extractEmailFromAuth, extractPlanFromAuth.
  rewrite (decodeJwtPayload_three _ _ _ _ _ _ Hsplit), Hparse. simpl.
  fold auth_key. repeat split.
  - intros v -> Hv. now destruct v.
  - now intros ->.
  - intros info v -> Hinfo Hv. simpl. rewrite Hinfo. now destruct v.
  - intros x -> Hx. now destruct x.
Qed.

End TokenFields.

Lemma X23_witness :
  decodeJwtPayload Sample.base64_utf8 Sample.JSON_parse "not-a-token" = Raise
  /\ extractEmailFromAuth Sample.base64_utf8 Sample.JSON_parse
       {| auth_mode := "chatgpt"; OPENAI_API_KEY := None;
          tokens := {| Tokens.id_token := "not-a-token"; Tokens.access_token := "";
                       Tokens.refresh_token := ""; Tokens.account_id := "acct-1" |};
          last_refresh := "" |} = JStr "unknown"
  /\ extractPlanFromAuth Sample.base64_utf8 Sample.JSON_parse
       {| auth_mode := "chatgpt"; OPENAI_API_KEY := None;
          tokens := {| Tokens.id_token := "not-a-token"; Tokens.access_token := "";
                       Tokens.refresh_token := ""; Tokens.account_id := "acct-1" |};
          last_refresh := "" |} = JStr "unknown".
Proof.
  apply (proj1 (X23_token_needs_two_dots Sample.base64_utf8 Sample.JSON_parse
                  {| auth_mode := "chatgpt"; OPENAI_API_KEY := None;
                     tokens := {| Tokens.id_token := "not-a-token";
                                  Tokens.access_token := "";
                                  Tokens.refresh_token := "";
                                  Tokens.account_id := "acct-1" |};
                     last_refresh := "" |})).
  simpl. lia.
Defined.

Lemma X24_witness :
  extractEmailFromAuth Sample.base64_utf8 Sample.JSON_parse
    (Sample.credential "acct-1" "r0") = JStr "a@x.com".
Proof.
  apply (proj1 (X24_fields_returned_unchecked Sample.base64_utf8 Sample.JSON_parse
                  (Sample.credential "acct-1" "r0") "h" "mail" "s"
                  [("email", JStr "a@x.com")] eq_refl eq_refl));
    [reflexivity | discriminate].
Defined.

(** X25. What is handed to the base64 decoder is the middle segment with
    every [-] turned into [+] and every [_] into [/], position by position
    and nothing else changed: it has the same length and none of the two
    characters of the URL alphabet. *)
Theorem X25_base64url_translation (part : string) :
  let standard := replaceAll "_" "/" (replaceAll "-" "+" part) in
  String.length standard = String.length part
  /\ (forall k, String.get k standard = url_to_standard <$> String.get k part)
  /\ (forall k, String.get k standard <> Some "-"%char
                /\ String.get k standard <> Some "_"%char).
Proof.
  intros standard.
  assert (Hget : forall k, String.get k standard
                           = url_to_standard <$> String.get k part).
  { subst standard. induction part as [|c s IH]; intros k; [reflexivity|].
    destruct k as [|k]; simpl; [|apply IH].
    unfold url_to_standard.
    destruct (Ascii.eqb_spec c "-") as [->|H1]; [reflexivity|].
    destruct (Ascii.eqb_spec c "_") as [->|H2]; reflexivity. }
  split; [|split; [exact Hget|]].
  - subst standard. clear Hget.
    induction part as [|c s IH]; simpl; [reflexivity|].
    now rewrite IH.
  - intros k. rewrite Hget. destruct (String.get k part) as [c|]; simpl;
      [|split; discriminate].
    unfold url_to_standard.
    destruct (Ascii.eqb_spec c "-") as [->|H1]; [split; discriminate|].
    destruct (Ascii.eqb_spec c "_") as [->|H2]; [split; discriminate|].
    split; congruence.
Qed.

(** ** Every pool the tool leaves is well formed *)

Section Reachable.

Variable base64_utf8 : string -> string.
Variable JSON_parse : string -> option JsValue.

Lemma well_formed_in_range (p : Pool) :
  in_range p -> well_formed p.
Proof.
  intros H. split; [auto|]. intros E. unfold in_range in H.
  rewrite E in H. simpl in H. lia.
Qed.

Lemma add_result_well_formed (label : string) (auth : CodexAuth)
    (added : string) (p p' : Pool) :
  well_formed p ->
  add_result base64_utf8 JSON_parse label auth added p p' ->
  in_range p'.
Proof.
  intros [Hin _] Hadd. unfold in_range in *.
  inversion Hadd as [existing entry Hfind Hentry | j dup Hnone Hfind Hentry
                     | Hnone Hnone']; subst; cbn [active_index accounts].
  - rewrite length_insert. apply findIndex_lt in Hfind. lia.
  - rewrite length_insert. apply Hin. intros E. now rewrite E in Hentry.
  - rewrite length_app. simpl. lia.
Qed.

Lemma handler_keeps_well_formed (h : Handler) (w : World) :
  well_formed (persisted w) ->
  well_formed (persisted (world_of (run_handler base64_utf8 JSON_parse h w))).
Proof.
  intros Hwf.
  destruct (run_handler base64_utf8 JSON_parse h w) as [[] w'|r w'|w'] eqn:Hrun;
    cbn [world_of].
  - (* returned *)
    destruct h as [label| | | | |label]; simpl in Hrun.
    + apply well_formed_in_range.
      apply cmdAdd_returned in Hrun as (_ & auth & _ & Hadd).
      eapply add_result_well_formed; eauto.
    + apply well_formed_in_range.
      pose proof (rotate_returned_two _ _ _ Hrun) as Htwo.
      eapply rotate_in_range; [|apply Hwf|exact Hrun].
      * intros i n Hi. now apply next_index.
      * apply nonempty_length. lia.
    + apply well_formed_in_range.
      pose proof (rotate_returned_two _ _ _ Hrun) as Htwo.
      eapply rotate_in_range; [|apply Hwf|exact Hrun].
      * intros i n Hi. now apply prev_index.
      * apply nonempty_length. lia.
    + now rewrite (persisted_world_of _ _ w _ Hrun (cmdList_pool_file w)).
    + now rewrite (persisted_world_of _ _ w _ Hrun
                     (cmdStatus_pool_file base64_utf8 JSON_parse w)).
    + apply (cmdRemove_in_range label w); [|exact Hrun].
      apply Hwf. intros E.
      destruct (string_empty_or_not label) as [->|Hlabel];
        [rewrite cmdRemove_empty_label in Hrun; discriminate|].
      rewrite (cmdRemove_run _ _ Hlabel) in Hrun. cbv zeta in Hrun.
      rewrite E in Hrun. discriminate.
  - (* died *)
    apply handler_exited in Hrun. now subst w'.
  - (* stopped on an exception *)
    destruct h as [label| | | | |label]; simpl in Hrun.
    + destruct (string_empty_or_not label) as [->|Hlabel];
        [rewrite cmdAdd_empty_label in Hrun; discriminate|].
      rewrite (cmdAdd_run _ _ _ _ Hlabel) in Hrun. cbv zeta in Hrun.
      destruct (codex_auth w) as [auth|]; [|discriminate].
      destruct (findIndex (has_label label) _) as [existing|].
      * destruct (_ !! existing); [discriminate|]. now injection Hrun as <-.
      * destruct (findIndex (same_account auth) _) as [j|]; [|discriminate].
        destruct (_ !! j); [discriminate|]. now injection Hrun as <-.
    + exfalso.
      destruct (Nat.lt_ge_cases (length (accounts (persisted w))) 2) as [Hlt|Hge];
        [unfold cmdNext in Hrun; rewrite (rotate_small _ _ Hlt) in Hrun; discriminate|].
      assert (Hin : in_range (persisted w))
        by (apply Hwf, nonempty_length; lia).
      destruct (rotate_step (fun i n => Z.rem (i + 1) n) w) as (nxt & m & _ & Hstep);
        [lia | exact Hin | now apply next_index |].
      unfold cmdNext in Hrun. rewrite Hstep in Hrun. discriminate.
    + exfalso.
      destruct (Nat.lt_ge_cases (length (accounts (persisted w))) 2) as [Hlt|Hge];
        [unfold cmdPrev in Hrun; rewrite (rotate_small _ _ Hlt) in Hrun; discriminate|].
      assert (Hin : in_range (persisted w))
        by (apply Hwf, nonempty_length; lia).
      destruct (rotate_step (fun i n => Z.rem (i - 1 + n) n) w) as (nxt & m & _ & Hstep);
        [lia | exact Hin | now apply prev_index |].
      unfold cmdPrev in Hrun. rewrite Hstep in Hrun. discriminate.
    + rewrite cmdList_run in Hrun. cbv zeta in Hrun.
      destruct (length _ =? 0)%nat; discriminate.
    + pose proof (cmdStatus_pool_file base64_utf8 JSON_parse w) as Hpool.
      rewrite Hrun in Hpool. simpl in Hpool.
      unfold persisted. now rewrite Hpool.
    + destruct (string_empty_or_not label) as [->|Hlabel];
        [rewrite cmdRemove_empty_label in Hrun; discriminate|].
      rewrite (cmdRemove_run _ _ Hlabel) in Hrun. cbv zeta in Hrun.
      destruct (findIndex _ _) as [idx|]; [|discriminate].
      destruct (_ !! idx); [discriminate|]. now injection Hrun as <-.
Qed.

(** X26. Every pool the tool leaves on disk is well formed.  Start with
    no pool file, or with a well-formed one; invoke the six handlers any
    number of times in any order, with any labels, however each invocation
    ends, while between invocations the host application rewrites or
    deletes the live credential file at will: the pool on disk always has
    its index within the pool, or index 0 when it is empty. *)
Theorem X26_pools_stay_well_formed (steps : list Step) (w : World) :
  pool_file w = None \/ well_formed (persisted w) ->
  well_formed (persisted (history base64_utf8 JSON_parse steps w)).
Proof.
  intros Hstart.
  assert (Hwf : well_formed (persisted w)).
  { destruct Hstart as [Hnone|H]; [|exact H].
    unfold persisted. rewrite Hnone. split; [intros H; now contradict H|reflexivity]. }
  clear Hstart. revert w Hwf.
  induction steps as [|[h|live clock] steps IH]; intros w Hwf; simpl.
  - exact Hwf.
  - apply IH. now apply handler_keeps_well_formed.
  - apply IH. exact Hwf.
Qed.

End Reachable.

Lemma X26_witness :
  well_formed
    (persisted
       (history Sample.base64_utf8 Sample.JSON_parse
          [Invoke (DoAdd "personal");
           Outside (Some (Sample.credential "acct-2" "r0")) "2025-06-02T00:00:00.000Z";
           Invoke (DoAdd "work"); Invoke DoNext;
           Outside None "2025-06-03T00:00:00.000Z";
           Invoke (DoRemove "work"); Invoke DoPrev; Invoke DoStatus]
          (Sample.world (Some (Sample.credential "acct-1" "r0")) None))).
Proof.
  apply (X26_pools_stay_well_formed Sample.base64_utf8 Sample.JSON_parse).
  left. reflexivity.
Defined.
